(** * Casbin (ApicaSystem fork): selected components, embedded and verified

    Shallow embedding of
      - package [util], [src/util/builtin_operators.go]: KeyMatch, KeyGet,
        KeyMatch3, KeyMatch5, the g-function factories, TimeMatch;
      - package [model], [src/model/assertion.go]: the role-link builders;
      - package [persist], in [src/persist/file-adapter/adapter_mock.go]:
        LoadPolicyLine, LoadPolicyArray;
      - package [fileadapter], [src/unnamed/part_000]: Adapter.SavePolicy.

    Go strings are byte strings and are embedded as [string] (a sequence of
    8-bit [ascii] characters).  Go's [int] results of [len] and
    [strings.Count] are never negative and are embedded as [nat]; the result
    of [strings.Index], which may be [-1], is embedded as [Z]. *)

From Stdlib Require Import ZArith Ascii String Lia.
From stdpp Require Import base option list gmap strings pretty.

Local Open Scope Z_scope.

(** ** Part I: definitions *)

(** *** Go values shared by all packages *)
Module Go.

(** A Go [error] value, identified by its message. *)
Definition error : Type := string.

(** [errors.New(msg)] *)
Definition errors_New (msg : string) : error := msg.

(** The run-time panics that the embedded code can raise. *)
Inductive panic : Type :=
| PanicIndex            (** index out of range *)
| PanicSliceBounds      (** slice bounds out of range *)
| PanicTypeAssertion    (** interface conversion: [x.(string)] on a non-string *)
| PanicValue (e : error) (** [panic(err)] *).

(** A Go function that either returns a value or panics. *)
Inductive panicking (A : Type) : Type :=
| Returns (a : A)
| Panics (p : panic).
Global Arguments Returns {A} a.
Global Arguments Panics {A} p.

(** A Go method with result type [error] acting on a state of type [S]:
    it returns [nil] or an error, leaving the state as mutated so far, or
    it stops.  [CapacityDependent] marks a slice expression whose upper
    bound lies past every element known to be in the backing array: Go
    then panics or reads spare capacity, depending on a capacity that the
    embedding does not represent. *)
Inductive outcome (S : Type) : Type :=
| Done (s : S) (err : option error)
| Crash (p : panic)
| CapacityDependent.
Global Arguments Done {S} s err.
Global Arguments Crash {S} p.
Global Arguments CapacityDependent {S}.

(** A dynamically typed argument ([interface{}]) of an expression
    function of the evaluator. *)
Inductive iface : Type :=
| IString (s : string)
| IBool (b : bool)
| INumber (n : Z).

End Go.

(** *** Go's [time] package, as far as [TimeMatch] uses it *)
Module GoTime.
Import Go.

(** An instant, in nanoseconds since the Unix epoch. *)
Definition Time : Type := Z.

(** [t.After(u)] *)
Definition After (t u : Time) : bool := u <? t.

(** [t.Before(u)] *)
Definition Before (t u : Time) : bool := t <? u.

Definition digit (c : ascii) : option Z :=
  let n := Z.of_nat (nat_of_ascii c) in
  if (48 <=? n) && (n <=? 57) then Some (n - 48) else None.

Fixpoint digits (acc : Z) (cs : list ascii) : option Z :=
  match cs with
  | [] => Some acc
  | c :: r => match digit c with
              | Some d => digits (10 * acc + d) r
              | None => None
              end
  end.

Definition isLeap (y : Z) : bool :=
  (y mod 4 =? 0) && (negb (y mod 100 =? 0) || (y mod 400 =? 0)).

Definition daysIn (m y : Z) : Z :=
  if m =? 2 then (if isLeap y then 29 else 28)
  else if (m =? 4) || (m =? 6) || (m =? 9) || (m =? 11) then 30 else 31.

(** Days from 1970-01-01 to the civil date [y]-[m]-[d] (proleptic
    Gregorian calendar). *)
Definition daysFromCivil (y m d : Z) : Z :=
  let y' := if m <=? 2 then y - 1 else y in
  let era := y' / 400 in
  let yoe := y' - era * 400 in
  let doy := (153 * (if 2 <? m then m - 3 else m + 9) + 2) / 5 + d - 1 in
  let doe := yoe * 365 + yoe / 4 - yoe / 100 + doy in
  era * 146097 + doe - 719468.

Definition layoutDateTime : string := "2006-01-02 15:04:05".

(** [time.Parse(layout, value)] is Go's standard library and not part of
    the repository; [TimeMatch] below is embedded over an arbitrary
    parser.  [ParseCanonical] is the parser restricted to the layout
    [layoutDateTime] and to values written in its canonical 19-character
    form [YYYY-MM-DD hh:mm:ss] (read as UTC); everything else is
    rejected.  It serves to run [TimeMatch] on concrete inputs. *)
Definition ParseCanonical (layout value : string) : Time + error :=
  if negb (String.eqb layout layoutDateTime) then inr (errors_New "unsupported layout")
  else
    match list_ascii_of_string value with
    | [y1; y2; y3; y4; "-"; m1; m2; "-"; d1; d2; " "; h1; h2; ":"; i1; i2; ":"; s1; s2]%char =>
        match digits 0 [y1; y2; y3; y4], digits 0 [m1; m2], digits 0 [d1; d2],
              digits 0 [h1; h2], digits 0 [i1; i2], digits 0 [s1; s2] with
        | Some y, Some m, Some d, Some h, Some mi, Some sec =>
            if (1 <=? m) && (m <=? 12) && (1 <=? d) && (d <=? daysIn m y)
               && (h <? 24) && (mi <? 60) && (sec <? 60)
            then inl ((daysFromCivil y m d * 86400 + h * 3600 + mi * 60 + sec)
                      * 1000000000)
            else inr (errors_New "parsing time: out of range")
        | _, _, _, _, _, _ => inr (errors_New "parsing time: cannot parse")
        end
    | _ => inr (errors_New "parsing time: cannot parse")
    end.

End GoTime.

(** *** Go's [strings] package and string slicing *)
Module GoStr.

(** [len(s)] *)
Abbreviation len := String.length.

(** [s[:n]] for [n <= len(s)] *)
Fixpoint stake (n : nat) (s : string) : string :=
  match n, s with
  | S k, String c r => String c (stake k r)
  | _, _ => ""
  end.

(** [s[n:]] for [n <= len(s)] *)
Fixpoint sdrop (n : nat) (s : string) : string :=
  match n, s with
  | S k, String _ r => sdrop k r
  | _, _ => s
  end.

(** [s[:i]] with a Go [int] index known to be within [0..len(s)] *)
Definition slice_to (s : string) (i : Z) : string := stake (Z.to_nat i) s.

(** [s[i:]] with a Go [int] index known to be within [0..len(s)] *)
Definition slice_from (s : string) (i : Z) : string := sdrop (Z.to_nat i) s.

(** [s[:i]] with the bounds check of the Go runtime: [None] is the
    run-time panic "slice bounds out of range". *)
Definition slice_to_checked (s : string) (i : nat) : option string :=
  if decide (i ≤ len s)%nat then Some (stake i s) else None.

(** [strings.HasPrefix(s, prefix)] *)
Fixpoint HasPrefix (s prefix : string) {struct prefix} : bool :=
  match prefix, s with
  | "", _ => true
  | String p prefix', String c s' => Ascii.eqb c p && HasPrefix s' prefix'
  | String _ _, "" => false
  end.

Fixpoint index_from (i : Z) (s substr : string) : Z :=
  if HasPrefix s substr then i
  else match s with
       | "" => -1
       | String _ r => index_from (i + 1) r substr
       end.

(** [strings.Index(s, substr)]: byte offset of the first occurrence of
    [substr] in [s], or [-1]. *)
Definition Index (s substr : string) : Z := index_from 0 s substr.

Fixpoint count_go (skip : nat) (s substr : string) : nat :=
  match s with
  | "" => 0
  | String _ r =>
      match skip with
      | S k => count_go k r substr
      | O => if HasPrefix s substr
             then S (count_go (len substr - 1) r substr)
             else count_go 0 r substr
      end
  end.

(** [strings.Count(s, substr)] for a non-empty [substr]: the number of
    non-overlapping occurrences, scanning from the left. *)
Definition Count (s substr : string) : nat := count_go 0 s substr.

Fixpoint replace_go (skip : nat) (s old new : string) : string :=
  match s with
  | "" => ""
  | String c r =>
      match skip with
      | S k => replace_go k r old new
      | O => if HasPrefix s old
             then new +:+ replace_go (len old - 1) r old new
             else String c (replace_go 0 r old new)
      end
  end.

(** [strings.Replace(s, old, new, -1)] for a non-empty [old]: every
    non-overlapping occurrence, scanning from the left, is replaced. *)
Definition ReplaceAll (s old new : string) : string := replace_go 0 s old new.

Fixpoint contains_byte (cutset : string) (c : ascii) : bool :=
  match cutset with
  | "" => false
  | String d r => Ascii.eqb c d || contains_byte r c
  end.

(** [strings.TrimRight(s, cutset)] for an ASCII [cutset]: all trailing
    bytes that belong to [cutset] are removed. *)
Fixpoint TrimRight (s cutset : string) : string :=
  match s with
  | "" => ""
  | String c r =>
      match TrimRight r cutset with
      | "" => if contains_byte cutset c then "" else String c ""
      | r' => String c r'
      end
  end.

(** [strings.Join(elems, sep)] *)
Fixpoint Join (elems : list string) (sep : string) : string :=
  match elems with
  | [] => ""
  | [e] => e
  | e :: rest => e +:+ sep +:+ Join rest sep
  end.

End GoStr.

(** *** The role-manager interfaces of package [rbac]

    The managers are Go interfaces whose implementations live outside the
    files embedded here; the callers below are embedded over any
    implementation.  A manager is a mutable object: its methods take the
    current state and return the next one. *)
Module Rbac.
Import Go.

(** [rbac.RoleManager] (the methods used by the embedded callers) *)
Class RoleManager (RM : Type) : Type := {
  (** [AddLink(name1, name2 string, domain ...string) error] *)
  AddLink : RM → string → string → list string → RM * option error;
  (** [DeleteLink(name1, name2 string, domain ...string) error] *)
  DeleteLink : RM → string → string → list string → RM * option error;
  (** [HasLink(name1, name2 string, domain ...string) (bool, error)] *)
  HasLink : RM → string → string → list string → bool * option error;
}.

(** [rbac.ConditionalRoleManager] *)
Class ConditionalRoleManager (RM : Type) : Type := {
  crm_RoleManager :: RoleManager RM;
  (** [SetLinkConditionFuncParams(userName, roleName string, params ...string)] *)
  SetLinkConditionFuncParams : RM → string → string → list string → RM;
  (** [SetDomainLinkConditionFuncParams(userName, roleName, domain string, params ...string)] *)
  SetDomainLinkConditionFuncParams :
    RM → string → string → string → list string → RM;
}.

End Rbac.

(** *** Package [util]: [builtin_operators.go] *)
Module Util.
Import Go GoStr.

(** [func KeyMatch(key1 string, key2 string) bool] *)
Definition KeyMatch (key1 key2 : string) : bool :=
  let i := Index key2 "*" in
  if i =? -1 then String.eqb key1 key2
  else if Z.of_nat (len key1) >? i
       then String.eqb (slice_to key1 i) (slice_to key2 i)
       else String.eqb key1 (slice_to key2 i).

(** [func KeyGet(key1, key2 string) string] *)
Definition KeyGet (key1 key2 : string) : string :=
  let i := Index key2 "*" in
  if i =? -1 then ""
  else if (Z.of_nat (len key1) >? i) && String.eqb (slice_to key1 i) (slice_to key2 i)
       then slice_from key1 i
       else "".

(** The regular-expression engine (Go's [regexp] package) is outside the
    repository; the functions that use it are embedded over any engine. *)
Class Regexp : Type := {
  (** [regexp.MatchString(pattern, s) (matched bool, err error)] *)
  regexp_MatchString : string → string → bool * option error;
  (** [regexp.MustCompile(expr).ReplaceAllString(src, repl)] *)
  regexp_ReplaceAllString : string → string → string → string;
}.

Definition keyMatch3Re : string := "\{[^/]+\}".
Definition keyMatch5Re : string := "\{[^/]+\}".

Section WithRegexp.
Context `{Regexp}.

(** [func RegexMatch(key1 string, key2 string) bool] *)
Definition RegexMatch (key1 key2 : string) : panicking bool :=
  match regexp_MatchString key2 key1 with
  | (_, Some err) => Panics (PanicValue err)
  | (res, None) => Returns res
  end.

(** [func KeyMatch3(key1 string, key2 string) bool] *)
Definition KeyMatch3 (key1 key2 : string) : panicking bool :=
  let key2 := ReplaceAll key2 "/*" "/.*" in
  let key2 := regexp_ReplaceAllString keyMatch3Re key2 "$1[^/]+$2" in
  RegexMatch key1 ("^" +:+ key2 +:+ "$").

(** [func KeyMatch5(key1 string, key2 string) bool] *)
Definition KeyMatch5 (key1 key2 : string) : panicking bool :=
  let i := Index key1 "?" in
  let key1 := if negb (i =? -1) then slice_to key1 i else key1 in
  let key2 := ReplaceAll key2 "/*" "/.*" in
  let key2 := regexp_ReplaceAllString keyMatch5Re key2 "$1[^/]+$2" in
  RegexMatch key1 ("^" +:+ key2 +:+ "$").

End WithRegexp.

(** The cache key of [GenerateGFunction]: every argument preceded by a
    zero byte. *)
Definition cacheKey (args : list string) : string :=
  fold_left (λ builder arg, builder +:+ String Ascii.zero arg) args "".

(** [a.(string)] for every argument, in order. *)
Fixpoint assertStrings (args : list iface) : option (list string) :=
  match args with
  | [] => Some []
  | IString s :: rest => cons s <$> assertStrings rest
  | _ :: _ => None
  end.

Section WithRoleManager.
Import Rbac.
Context {RM : Type} `{!RoleManager RM}.

(** The closure returned by
    [func GenerateGFunction(rm rbac.RoleManager) govaluate.ExpressionFunction].
    [rm] is [None] for the nil interface; [memorized] is the closure's
    [sync.Map], returned with the entry the call has stored. *)
Definition GFunction (rm : option RM) (memorized : gmap string bool)
    (args : list iface)
  : panicking (iface * option error * gmap string bool) :=
  match assertStrings args with
  | None => Panics PanicTypeAssertion
  | Some strs =>
      let key := cacheKey strs in
      match memorized !! key with
      | Some v => Returns (IBool v, None, memorized)
      | None =>
          match strs with
          | name1 :: name2 :: rest =>
              let v :=
                match rm with
                | None => String.eqb name1 name2
                | Some rm =>
                    match rest with
                    | [] => fst (HasLink rm name1 name2 [])
                    | domain :: _ => fst (HasLink rm name1 name2 [domain])
                    end
                end in
              Returns (IBool v, None, <[key := v]> memorized)
          | _ => Panics PanicIndex
          end
      end
  end.

(** The closure returned by
    [func GenerateConditionalGFunction(crm rbac.ConditionalRoleManager)
       govaluate.ExpressionFunction]. *)
Definition ConditionalGFunction (crm : option RM) (args : list iface)
  : panicking (iface * option error) :=
  match args with
  | [] => Panics PanicIndex
  | IString name1 :: args1 =>
      match args1 with
      | [] => Panics PanicIndex
      | IString name2 :: args2 =>
          match crm with
          | None => Returns (IBool (String.eqb name1 name2), None)
          | Some crm =>
              match args2 with
              | [] => Returns (IBool (fst (HasLink crm name1 name2 [])), None)
              | IString domain :: _ =>
                  Returns (IBool (fst (HasLink crm name1 name2 [domain])), None)
              | _ :: _ => Panics PanicTypeAssertion
              end
          end
      | _ :: _ => Panics PanicTypeAssertion
      end
  | _ :: _ => Panics PanicTypeAssertion
  end.

End WithRoleManager.

Section WithClock.
Import GoTime.
(** [time.Now()] and [time.Parse(layout, value)] *)
Variable now : Time.
Variable Parse : string → string → Time + error.

(** [func TimeMatch(startTime, endTime string) (bool, error)] *)
Definition TimeMatch (startTime endTime : string) : bool * option error :=
  let checkStart : option (bool * option error) :=
    if negb (String.eqb startTime "_") then
      match Parse "2006-01-02 15:04:05" startTime with
      | inr err => Some (false, Some err)
      | inl start => if negb (After now start) then Some (false, None) else None
      end
    else None in
  match checkStart with
  | Some ret => ret
  | None =>
      let checkEnd : option (bool * option error) :=
        if negb (String.eqb endTime "_") then
          match Parse "2006-01-02 15:04:05" endTime with
          | inr err => Some (false, Some err)
          | inl end_ => if negb (Before now end_) then Some (false, None) else None
          end
        else None in
      match checkEnd with
      | Some ret => ret
      | None => (true, None)
      end
  end.

End WithClock.

(** [fmt.Errorf("expected %d arguments, but got %d", expectedLen, len(args))] *)
Definition errArgCount (expectedLen : Z) (got : nat) : error :=
  "expected " +:+ pretty expectedLen +:+ " arguments, but got " +:+ pretty got.

(** [fmt.Errorf("%s: %w", name, err)] *)
Definition wrapError (name : string) (err : error) : error :=
  name +:+ ": " +:+ err.

(** [_, ok := p.(string)] *)
Definition isString (p : iface) : bool :=
  match p with
  | IString _ => true
  | _ => false
  end.

(** [func validateVariadicArgs(expectedLen int, args ...interface{}) error] *)
Definition validateVariadicArgs (expectedLen : Z) (args : list iface)
  : option error :=
  if negb (Z.of_nat (length args) =? expectedLen)
  then Some (errArgCount expectedLen (length args))
  else if forallb isString args then None
       else Some (errors_New "argument must be a string").

(** [func validateVariadicStringArgs(expectedLen int, args ...string) error] *)
Definition validateVariadicStringArgs (expectedLen : Z) (args : list string)
  : option error :=
  if negb (Z.of_nat (length args) =? expectedLen)
  then Some (errArgCount expectedLen (length args))
  else None.

(** [args[i].(string)] *)
Definition argString (args : list iface) (i : nat) : panicking string :=
  match args !! i with
  | None => Panics PanicIndex
  | Some (IString s) => Returns s
  | Some _ => Panics PanicTypeAssertion
  end.

(** The two statements [name1 := args[0].(string)] and
    [name2 := args[1].(string)] of the wrappers, followed by [k]. *)
Definition withTwoNames {A : Type} (args : list iface)
    (k : string → string → panicking A) : panicking A :=
  match argString args 0 with
  | Panics p => Panics p
  | Returns name1 =>
      match argString args 1 with
      | Panics p => Panics p
      | Returns name2 => k name1 name2
      end
  end.

(** [func KeyMatchFunc(args ...interface{}) (interface{}, error)] *)
Definition KeyMatchFunc (args : list iface) : panicking (iface * option error) :=
  match validateVariadicArgs 2 args with
  | Some err => Returns (IBool false, Some (wrapError "keyMatch" err))
  | None =>
      withTwoNames args (λ name1 name2,
        Returns (IBool (KeyMatch name1 name2), None))
  end.

(** [func KeyGetFunc(args ...interface{}) (interface{}, error)] *)
Definition KeyGetFunc (args : list iface) : panicking (iface * option error) :=
  match validateVariadicArgs 2 args with
  | Some err => Returns (IBool false, Some (wrapError "keyGet" err))
  | None =>
      withTwoNames args (λ name1 name2,
        Returns (IString (KeyGet name1 name2), None))
  end.

Section WithClockFunc.
Import GoTime.
Variable now : Time.
Variable Parse : string → string → Time + error.

(** [func TimeMatchFunc(args ...string) (bool, error)] *)
Definition TimeMatchFunc (args : list string) : panicking (bool * option error) :=
  match validateVariadicStringArgs 2 args with
  | Some err => Returns (false, Some (wrapError "TimeMatch" err))
  | None =>
      match args with
      | [] => Panics PanicIndex
      | args0 :: args' =>
          match args' with
          | [] => Panics PanicIndex
          | args1 :: _ => Returns (TimeMatch now Parse args0 args1)
          end
      end
  end.

End WithClockFunc.

(** The part of Go's [regexp] package that [KeyMatch4] uses.  The
    expression is given by its source; [mustCompileOrGet] caches compiled
    expressions and returns what [regexp.MustCompile] returns. *)
Class RegexpSubmatch : Type := {
  (** [regexp.MustCompile(expr).FindAllString(src, -1)]: the matches of the
      expression in [src], from left to right; [ReplaceAllStringFunc] calls
      its function on these, in this order. *)
  regexp_FindAllString : string → string → list string;
  (** [regexp.MustCompile(expr).ReplaceAllStringFunc(src, repl)] *)
  regexp_ReplaceAllStringFunc : string → string → (string → string) → string;
  (** [regexp.MustCompile(expr).FindStringSubmatch(s)]: a panic when the
      expression does not compile, [None] for the nil slice of no match. *)
  regexp_FindStringSubmatch : string → string → panicking (option (list string));
}.

Definition keyMatch4Re : string := "{([^/]+)}".

(** [s[1:len(s)-1]], with the bounds check of the Go runtime *)
Definition stripBraces (s : string) : option string :=
  if decide (2 ≤ len s)%nat then Some (stake (len s - 2) (sdrop 1 s)) else None.

(** The loop [for key, token := range tokens] of [KeyMatch4], from the
    index [key] on, with the map [values] built so far. *)
Fixpoint keyMatch4Loop (matches : list string) (key : nat) (tokens : list string)
    (values : gmap string string) : panicking bool :=
  match tokens with
  | [] => Returns true
  | token :: tokens' =>
      match matches !! key with
      | None => Panics PanicIndex
      | Some value =>
          let values :=
            match values !! token with
            | None => <[token := value]> values
            | Some _ => values
            end in
          if negb (String.eqb (default "" (values !! token)) value)
          then Returns false
          else keyMatch4Loop matches (S key) tokens' values
      end
  end.

Section WithRegexpSubmatch.
Context `{RegexpSubmatch}.

(** [func KeyMatch4(key1 string, key2 string) bool] *)
Definition KeyMatch4 (key1 key2 : string) : panicking bool :=
  let key2 := ReplaceAll key2 "/*" "/.*" in
  match mapM stripBraces (regexp_FindAllString keyMatch4Re key2) with
  | None => Panics PanicSliceBounds
  | Some tokens =>
      let key2 := regexp_ReplaceAllStringFunc keyMatch4Re key2 (λ _, "([^/]+)") in
      match regexp_FindStringSubmatch ("^" +:+ key2 +:+ "$") key1 with
      | Panics p => Panics p
      | Returns None => Returns false
      | Returns (Some matches) =>
          match matches with
          | [] => Panics PanicSliceBounds
          | _ :: matches =>
              if negb (length tokens =? length matches)%nat
              then Panics (PanicValue (errors_New
                     "KeyMatch4: number of tokens is not equal to number of values"))
              else keyMatch4Loop matches 0 tokens ∅
          end
      end
  end.

End WithRegexpSubmatch.

End Util.

(** *** Package [model]: [assertion.go] *)
Module Model.
Import Go Rbac.

(** [type Assertion struct].  The fields [RM] and [CondRM] hold a
    reference to the manager the assertion was last built with; the
    manager itself is passed to, and returned by, the builders below. *)
Record Assertion : Type := {
  Key : string;
  Value : string;
  Tokens : list string;
  ParamsTokens : list string;
  Policy : list (list string);
  PolicyMap : gmap string nat;
  FieldIndexMap : gmap string nat;
}.

(** [type PolicyOp int] with its constants [PolicyAdd] and
    [PolicyRemove]; [PolicyOther] stands for every other value. *)
Inductive PolicyOp : Type := PolicyAdd | PolicyRemove | PolicyOther.

Definition quote : string := String (ascii_of_nat 34) EmptyString.

Definition errRoleDefinitionCount : error :=
  errors_New ("the number of " +:+ quote +:+ "_" +:+ quote
              +:+ " in role definition should be at least 2").

Definition errRuleTooShort : error :=
  errors_New "grouping policy elements do not meet role definition".

(** [rule = rule[:count]] when [len(rule) > count] *)
Definition truncate (count : nat) (rule : list string) : list string :=
  if decide (count < length rule)%nat then take count rule else rule.

Section WithRoleManager.
Context {RM : Type} `{!RoleManager RM}.

(** The loop of [buildIncrementalRoleLinks] over [rules]. *)
Fixpoint incrementalRoleLinksLoop (count : nat) (op : PolicyOp) (rm : RM)
    (rules : list (list string)) : outcome RM :=
  match rules with
  | [] => Done rm None
  | rule :: rules' =>
      if decide (length rule < count)%nat then Done rm (Some errRuleTooShort)
      else
        match op with
        | PolicyAdd =>
            match truncate count rule with
            | rule0 :: rule1 :: domain =>
                match AddLink rm rule0 rule1 domain with
                | (rm', Some err) => Done rm' (Some err)
                | (rm', None) => incrementalRoleLinksLoop count op rm' rules'
                end
            | _ => Crash PanicIndex
            end
        | PolicyRemove =>
            match truncate count rule with
            | rule0 :: rule1 :: domain =>
                match DeleteLink rm rule0 rule1 domain with
                | (rm', Some err) => Done rm' (Some err)
                | (rm', None) => incrementalRoleLinksLoop count op rm' rules'
                end
            | _ => Crash PanicIndex
            end
        | PolicyOther => incrementalRoleLinksLoop count op rm rules'
        end
  end.

(** [func (ast *Assertion) buildIncrementalRoleLinks(rm rbac.RoleManager,
      op PolicyOp, rules [][]string) error] *)
Definition buildIncrementalRoleLinks (ast : Assertion) (rm : RM)
    (op : PolicyOp) (rules : list (list string)) : outcome RM :=
  let count := GoStr.Count (Value ast) "_" in
  if decide (count < 2)%nat then Done rm (Some errRoleDefinitionCount)
  else incrementalRoleLinksLoop count op rm rules.

(** The loop of [buildRoleLinks] over [ast.Policy]. *)
Fixpoint roleLinksLoop (count : nat) (rm : RM) (rules : list (list string))
  : outcome RM :=
  match rules with
  | [] => Done rm None
  | rule :: rules' =>
      if decide (length rule < count)%nat then Done rm (Some errRuleTooShort)
      else
        match truncate count rule with
        | rule0 :: rule1 :: domain =>
            match AddLink rm rule0 rule1 domain with
            | (rm', Some err) => Done rm' (Some err)
            | (rm', None) => roleLinksLoop count rm' rules'
            end
        | _ => Crash PanicIndex
        end
  end.

(** [func (ast *Assertion) buildRoleLinks(rm rbac.RoleManager) error] *)
Definition buildRoleLinks (ast : Assertion) (rm : RM) : outcome RM :=
  let count := GoStr.Count (Value ast) "_" in
  if decide (count < 2)%nat then Done rm (Some errRoleDefinitionCount)
  else roleLinksLoop count rm (Policy ast).

End WithRoleManager.

(** A local slice variable of the conditional builders: its [elems] are
    the [len] visible elements; [spare] are the elements of the backing
    array past [len] that a truncation [rule[:count]] has left there. *)
Record slice : Type := { elems : list string; spare : list string }.

Inductive sliced : Type :=
| SliceOk (s : slice)
| SlicePanic
| SliceCapacityDependent.

(** [s[lo:hi]]: Go requires [lo <= hi <= cap(s)]. *)
Definition reslice (s : slice) (lo hi : nat) : sliced :=
  let backing := elems s ++ spare s in
  if decide (hi < lo)%nat then SlicePanic
  else if decide (hi ≤ length backing)%nat
       then SliceOk {| elems := take (hi - lo) (drop lo backing);
                       spare := drop hi backing |}
       else SliceCapacityDependent.

(** [s[lo:]]: Go requires [lo <= len(s)]. *)
Definition resliceFrom (s : slice) (lo : nat) : option (list string) :=
  if decide (lo ≤ length (elems s))%nat then Some (drop lo (elems s)) else None.

(** [rule = rule[:count]] when [len(rule) > count], on a rule of the
    policy *)
Definition truncateSlice (count : nat) (rule : list string) : slice :=
  if decide (count < length rule)%nat
  then {| elems := take count rule; spare := drop count rule |}
  else {| elems := rule; spare := [] |}.

Section WithConditionalRoleManager.
Context {RM : Type} `{!ConditionalRoleManager RM}.

(** [func (ast *Assertion) addConditionalRoleLink(rule []string,
      domainRule []string) error] *)
Definition addConditionalRoleLink (ast : Assertion) (crm : RM)
    (rule : slice) (domainRule : list string) : outcome RM :=
  match elems rule with
  | rule0 :: rule1 :: _ =>
      match domainRule with
      | [] =>
          match AddLink crm rule0 rule1 [] with
          | (crm', Some err) => Done crm' (Some err)
          | (crm', None) =>
              match resliceFrom rule (length (Tokens ast)) with
              | Some params =>
                  Done (SetLinkConditionFuncParams crm' rule0 rule1 params) None
              | None => Crash PanicSliceBounds
              end
          end
      | domain :: _ =>
          match AddLink crm rule0 rule1 [domain] with
          | (crm', Some err) => Done crm' (Some err)
          | (crm', None) =>
              match resliceFrom rule (length (Tokens ast)) with
              | Some params =>
                  Done (SetDomainLinkConditionFuncParams
                          crm' rule0 rule1 domain params) None
              | None => Crash PanicSliceBounds
              end
          end
      end
  | _ => Crash PanicIndex
  end.

(** The loop of [buildConditionalRoleLinks] over [ast.Policy]. *)
Fixpoint conditionalRoleLinksLoop (ast : Assertion) (count : nat) (crm : RM)
    (rules : list (list string)) : outcome RM :=
  match rules with
  | [] => Done crm None
  | rule :: rules' =>
      if decide (length rule < count)%nat then Done crm (Some errRuleTooShort)
      else
        let rule := truncateSlice count rule in
        match reslice rule 2 (length (Tokens ast)) with
        | SlicePanic => Crash PanicSliceBounds
        | SliceCapacityDependent => CapacityDependent
        | SliceOk domainRule =>
            match addConditionalRoleLink ast crm rule (elems domainRule) with
            | Done crm' None => conditionalRoleLinksLoop ast count crm' rules'
            | stop => stop
            end
        end
  end.

(** [func (ast *Assertion) buildConditionalRoleLinks(
      condRM rbac.ConditionalRoleManager) error] *)
Definition buildConditionalRoleLinks (ast : Assertion) (condRM : RM)
  : outcome RM :=
  let count := GoStr.Count (Value ast) "_" in
  if decide (count < 2)%nat then Done condRM (Some errRoleDefinitionCount)
  else conditionalRoleLinksLoop ast count condRM (Policy ast).

End WithConditionalRoleManager.

Section WithConditionalRoleManagerIncremental.
Context {RM : Type} `{!ConditionalRoleManager RM}.

(** The loop of [buildIncrementalConditionalRoleLinks] over [rules]. *)
Fixpoint incrementalConditionalRoleLinksLoop (ast : Assertion) (count : nat)
    (op : PolicyOp) (crm : RM) (rules : list (list string)) : outcome RM :=
  match rules with
  | [] => Done crm None
  | rule :: rules' =>
      if decide (length rule < count)%nat then Done crm (Some errRuleTooShort)
      else
        let rule := truncateSlice count rule in
        match reslice rule 2 (length (Tokens ast)) with
        | SlicePanic => Crash PanicSliceBounds
        | SliceCapacityDependent => CapacityDependent
        | SliceOk domainRule =>
            match op with
            | PolicyAdd =>
                match addConditionalRoleLink ast crm rule (elems domainRule) with
                | Done crm' None =>
                    incrementalConditionalRoleLinksLoop ast count op crm' rules'
                | stop => stop
                end
            | PolicyRemove =>
                match elems rule with
                | rule0 :: rule1 :: domain =>
                    match DeleteLink crm rule0 rule1 domain with
                    | (crm', Some err) => Done crm' (Some err)
                    | (crm', None) =>
                        incrementalConditionalRoleLinksLoop ast count op crm' rules'
                    end
                | _ => Crash PanicIndex
                end
            | PolicyOther =>
                incrementalConditionalRoleLinksLoop ast count op crm rules'
            end
        end
  end.

(** [func (ast *Assertion) buildIncrementalConditionalRoleLinks(
      condRM rbac.ConditionalRoleManager, op PolicyOp, rules [][]string) error] *)
Definition buildIncrementalConditionalRoleLinks (ast : Assertion) (condRM : RM)
    (op : PolicyOp) (rules : list (list string)) : outcome RM :=
  let count := GoStr.Count (Value ast) "_" in
  if decide (count < 2)%nat then Done condRM (Some errRoleDefinitionCount)
  else incrementalConditionalRoleLinksLoop ast count op condRM rules.

End WithConditionalRoleManagerIncremental.

End Model.

(** *** The policy store of package [model]

    [model.Model] is [map[string]AssertionMap], a map from section to a map
    from key to assertion.  Its methods [HasPolicyEx] and [AddPolicy], which
    [persist.LoadPolicyArray] calls, are not among the embedded files and
    are modelled from the specification of the policy store. *)
Module PolicyStore.
Import Go Model.

Abbreviation AssertionMap := (gmap string Assertion).
Abbreviation Model := (gmap string (gmap string Assertion)).

(** [model[sec]]; a missing section reads as the empty (nil) map. *)
Definition section (m : Model) (sec : string) : AssertionMap :=
  default ∅ (m !! sec).

(** Modelled from the spec: the error of a store operation on a pair
    [(section, key)] that has no assertion; the spec names no message. *)
Definition errNoAssertion : error := errors_New "assertion not found".

Section WithDelimiter.
(** The delimiter of the canonical form, which the spec leaves open. *)
Variable sep : string.

(** Modelled from the spec: the canonical form of a rule, missing from
    src/ with [model/policy.go]: "the rule's positional fields joined by
    a delimiter". *)
Definition canonical (rule : list string) : string := GoStr.Join rule sep.

(** Modelled from the spec: the assertion identified by
    [(section, key)]; the spec gives no behaviour for a pair without an
    assertion, for which the operations below report an error and
    change nothing. *)
Definition GetAssertion (m : Model) (sec key : string) : option Assertion :=
  section m sec !! key.

(** Modelled from the spec: the read query [has_policy] of the policy
    store, missing from src/: a rule is present when its canonical form
    is in the assertion's index. *)
Definition has_policy (m : Model) (sec key : string) (rule : list string)
  : bool :=
  match GetAssertion m sec key with
  | Some ast => bool_decide (is_Some (PolicyMap ast !! canonical rule))
  | None => false
  end.

(** Modelled from the spec: "append and index", the step of [add_policy]
    on a rule that is not present, missing from src/: [rule] is appended to
    the policy and its canonical form is indexed at its position. *)
Definition appendRule (ast : Assertion) (rule : list string) : Assertion :=
  {| Key := Key ast; Value := Value ast; Tokens := Tokens ast;
     ParamsTokens := ParamsTokens ast;
     Policy := Policy ast ++ [rule];
     PolicyMap := <[canonical rule := length (Policy ast)]> (PolicyMap ast);
     FieldIndexMap := FieldIndexMap ast |}.

(** Modelled from the spec: [add_policy(section, key, rule)] of the
    policy store, missing from src/: "if canonical(rule) ∈ policyIndex
    return (false, nil); else append and index".  The result is the
    store and the pair [(changed, error)]. *)
Definition add_policy (m : Model) (sec key : string) (rule : list string)
  : Model * (bool * option error) :=
  match GetAssertion m sec key with
  | None => (m, (false, Some errNoAssertion))
  | Some ast =>
      if bool_decide (is_Some (PolicyMap ast !! canonical rule))
      then (m, (false, None))
      else (<[sec := <[key := appendRule ast rule]> (section m sec)]> m,
            (true, None))
  end.

(** Modelled from the spec: the error of a store operation on a rule
    that is invalid for its assertion; the spec names no message. *)
Definition errInvalidRule : error := errors_New "invalid policy rule size".

(** Modelled from the spec: [Model.HasPolicyEx(sec, ptype, rule)
    (bool, error)], missing from src/: the query [has_policy] with an
    error result.  A rule with fewer fields than the tokens of its
    assertion is reported as an error ("if a rule is longer than the
    declared token count for its assertion, trailing fields are treated as
    parameters or ignored; if shorter, the rule is invalid"). *)
Definition HasPolicyEx (m : Model) (sec ptype : string) (rule : list string)
  : bool * option error :=
  match GetAssertion m sec ptype with
  | None => (false, Some errNoAssertion)
  | Some ast =>
      if decide (length rule < length (Tokens ast))%nat
      then (false, Some errInvalidRule)
      else (has_policy m sec ptype rule, None)
  end.

(** Modelled from the spec: [Model.AddPolicy(sec, ptype, rule) error],
    missing from src/: [add_policy] without its [changed] result. *)
Definition AddPolicy (m : Model) (sec ptype : string) (rule : list string)
  : Model * option error :=
  let '(m', (_, err)) := add_policy m sec ptype rule in (m', err).

End WithDelimiter.

End PolicyStore.

(** *** Package [persist]: [LoadPolicyLine] and [LoadPolicyArray] *)
Module Persist.
Import Go GoStr Model PolicyStore.

(** The settings of a [csv.Reader] that [LoadPolicyLine] assigns. *)
Record csvReader : Type := {
  Comma : ascii;
  Comment : ascii;
  TrimLeadingSpace : bool;
}.

Definition isSpace (c : ascii) : bool :=
  let n := nat_of_ascii c in
  (n =? 32)%nat || ((9 <=? n)%nat && (n <=? 13)%nat).

Fixpoint trimLeft (s : string) : string :=
  match s with
  | String c r => if isSpace c then trimLeft r else s
  | "" => ""
  end.

Fixpoint splitOn (comma : ascii) (s : string) : list string :=
  match s with
  | "" => [""]
  | String c r =>
      if Ascii.eqb c comma then "" :: splitOn comma r
      else match splitOn comma r with
           | field :: fields => String c field :: fields
           | [] => [String c ""]
           end
  end.

(** [encoding/csv] is Go's standard library and not part of the
    repository; [LoadPolicyLine] below is embedded over an arbitrary
    record reader.  [readPlainRecord] is the reader restricted to one
    line of unquoted fields: a line that holds a double quote, a carriage
    return or a line feed is rejected here.  It serves to run
    [LoadPolicyLine] on concrete lines. *)
Definition readPlainRecord (r : csvReader) (line : string)
  : list string + error :=
  if contains_byte line (ascii_of_nat 34) || contains_byte line (ascii_of_nat 13)
     || contains_byte line (ascii_of_nat 10)
  then inr (errors_New "quoted or multi-line record")
  else
    let line := if TrimLeadingSpace r then trimLeft line else line in
    if String.eqb line "" || HasPrefix line (String (Comment r) "")
    then inr (errors_New "EOF")
    else
      let fields := splitOn (Comma r) line in
      inl (if TrimLeadingSpace r then trimLeft <$> fields else fields).

Section WithLibraries.
Variable sep : string.
(** [csv.NewReader(strings.NewReader(line))] with the given settings,
    followed by [r.Read()]. *)
Variable csvRead : csvReader → string → list string + error.

(** [func LoadPolicyArray(rule []string, m model.Model) error] *)
Definition LoadPolicyArray (rule : list string) (m : Model) : outcome Model :=
  match rule with
  | [] => Crash PanicIndex
  | key :: rule1 =>
      match slice_to_checked key 1 with
      | None => Crash PanicSliceBounds
      | Some sec =>
          match HasPolicyEx sep m sec key rule1 with
          | (_, Some err) => Done m (Some err)
          | (true, None) => Done m None
          | (false, None) =>
              let '(m', err) := AddPolicy sep m sec key rule1 in Done m' err
          end
      end
  end.

(** [func LoadPolicyLine(line string, m model.Model) error] *)
Definition LoadPolicyLine (line : string) (m : Model) : outcome Model :=
  if String.eqb line "" || HasPrefix line "#" then Done m None
  else
    match csvRead {| Comma := ","; Comment := "#"; TrimLeadingSpace := true |}
                  line with
    | inr err => Done m (Some err)
    | inl tokens => LoadPolicyArray tokens m
    end.

End WithLibraries.

End Persist.

(** *** Package [fileadapter]: [Adapter.SavePolicy] *)
Module FileAdapter.
Import Go GoStr Model PolicyStore.

(** [type Adapter struct] *)
Record Adapter : Type := { filePath : string }.

(** The files of the storage, and the paths that [os.Create] refuses. *)
Record FileSystem : Type := {
  files : gmap string string;
  refused : gset string;
}.

Definition newline : string := String (ascii_of_nat 10) EmptyString.

(** Modelled from the spec: [util.ArrayToString], missing from src/ with
    [util/util.go]: the policy storage format writes the fields of a rule
    "comma-separated", as in [p, alice, data1, read]. *)
Definition ArrayToString (rule : list string) : string := Join rule ", ".

(** [func (a *Adapter) savePolicyFile(text string) error]; writing,
    flushing and closing a created file succeed. *)
Definition savePolicyFile (a : Adapter) (text : string) (fs : FileSystem)
  : FileSystem * option error :=
  if bool_decide (filePath a ∈ refused fs)
  then (fs, Some (errors_New "open: permission denied"))
  else ({| files := <[filePath a := text]> (files fs); refused := refused fs |},
        None).

(** The inner loop of [SavePolicy]: the rules of one assertion. *)
Definition writeRules (ptype : string) (ast : Assertion) (tmp : string)
  : string :=
  fold_left (λ tmp rule,
               ((tmp +:+ (ptype +:+ ", ")) +:+ ArrayToString rule) +:+ newline)
            (Policy ast) tmp.

(** The outer loop of [SavePolicy] over the entries of one section, in
    the order in which [range] visits them. *)
Definition writeSection (visit : list (string * Assertion)) (tmp : string)
  : string :=
  fold_left (λ tmp entry, writeRules entry.1 entry.2 tmp) visit tmp.

(** Go's [range] over a map visits every entry once, in an order that is
    not specified. *)
Definition rangeOrder (m : AssertionMap) (visit : list (string * Assertion))
  : Prop :=
  visit ≡ₚ map_to_list m.

(** [func (a *Adapter) SavePolicy(model model.Model) error], given the
    orders [pVisit] and [gVisit] in which the two [range] loops visit
    [model["p"]] and [model["g"]]. *)
Definition SavePolicy (a : Adapter) (pVisit gVisit : list (string * Assertion))
    (fs : FileSystem) : FileSystem * option error :=
  if String.eqb (filePath a) ""
  then (fs, Some (errors_New "invalid file path, file path cannot be empty"))
  else
    let tmp := "" in
    let tmp := writeSection pVisit tmp in
    let tmp := writeSection gVisit tmp in
    savePolicyFile a (TrimRight tmp newline) fs.


(** [os.Open] on a path that holds no file. *)
Definition errNoSuchFile : error := errors_New "open: no such file or directory".

(** The loop body shared by the two [loadPolicyFile]: every line is
    trimmed and handed to [handler], which works on the model; the first
    line on which the handler does not return [nil] stops the loop. *)
Fixpoint handleLines (TrimSpace : string → string)
    (handler : string → Model → outcome Model)
    (lines : list string) (model : Model) : outcome Model :=
  match lines with
  | [] => Done model None
  | line :: lines' =>
      match handler (TrimSpace line) model with
      | Done model' None => handleLines TrimSpace handler lines' model'
      | stop => stop
      end
  end.

(** The results of the calls [buf.ReadString('\n')] on a file of the given
    content, until the end of the file: every result but the last ends in
    the newline, the last one (which comes with [io.EOF]) does not and may
    be empty. *)
Fixpoint readStrings (content : string) : list string :=
  match content with
  | "" => [""]
  | String c rest =>
      if Ascii.eqb c (ascii_of_nat 10) then String c "" :: readStrings rest
      else match readStrings rest with
           | line :: lines => String c line :: lines
           | [] => [String c ""]
           end
  end.

(** [type AdapterMock struct] *)
Record AdapterMock : Type := {
  mockFilePath : string;
  errorValue : string;
}.

(** [func NewAdapterMock(filePath string) *AdapterMock] *)
Definition NewAdapterMock (filePath : string) : AdapterMock :=
  {| mockFilePath := filePath; errorValue := "" |}.

Section WithFileLibraries.
(** [strings.TrimSpace] *)
Variable TrimSpace : string → string.
(** A [bufio.Scanner] over a file of the given content: the texts of the
    tokens for which [Scan] returns true, and the final [scanner.Err()]. *)
Variable scanLines : string → list string * option error.

(** [func (a *Adapter) loadPolicyFile(model model.Model,
      handler func(string, model.Model) error) error] *)
Definition loadPolicyFile (a : Adapter) (model : Model)
    (handler : string → Model → outcome Model) (fs : FileSystem)
  : outcome Model :=
  match files fs !! filePath a with
  | None => Done model (Some errNoSuchFile)
  | Some content =>
      let '(lines, scanErr) := scanLines content in
      match handleLines TrimSpace handler lines model with
      | Done model' None => Done model' scanErr
      | stop => stop
      end
  end.

(** [func (a *AdapterMock) loadPolicyFile(model model.Model,
      handler func(string, model.Model) error) error]; reading an opened
    file fails at its end only. *)
Definition mockLoadPolicyFile (a : AdapterMock) (model : Model)
    (handler : string → Model → outcome Model) (fs : FileSystem)
  : outcome Model :=
  match files fs !! mockFilePath a with
  | None => Done model (Some errNoSuchFile)
  | Some content => handleLines TrimSpace handler (readStrings content) model
  end.

Section WithPersist.
Variable sep : string.
Variable csvRead : Persist.csvReader → string → list string + error.

(** [func (a *Adapter) LoadPolicy(model model.Model) error] *)
Definition LoadPolicy (a : Adapter) (model : Model) (fs : FileSystem)
  : outcome Model :=
  if String.eqb (filePath a) ""
  then Done model
         (Some (errors_New "invalid file path, file path cannot be empty"))
  else loadPolicyFile a model (Persist.LoadPolicyLine sep csvRead) fs.

(** [func (a *AdapterMock) LoadPolicy(model model.Model) error] *)
Definition MockLoadPolicy (a : AdapterMock) (model : Model) (fs : FileSystem)
  : outcome Model :=
  mockLoadPolicyFile a model (Persist.LoadPolicyLine sep csvRead) fs.

End WithPersist.

End WithFileLibraries.

End FileAdapter.

(** *** A role manager that records the calls it receives *)
Module Recorder.
Import Go Rbac.

Inductive call : Type :=
| CallAddLink (name1 name2 : string) (domain : list string)
| CallDeleteLink (name1 name2 : string) (domain : list string)
| CallSetLinkConditionFuncParams (user role : string) (params : list string)
| CallSetDomainLinkConditionFuncParams
    (user role domain : string) (params : list string).

(** The calls received so far, oldest first, and the links that the
    manager refuses with an error.  The recorder keeps no graph: its
    [HasLink] finds no link. *)
Record recorder : Type := {
  log : list call;
  rejects : call → option error;
}.

Definition record (r : recorder) (c : call) : recorder :=
  {| log := log r ++ [c]; rejects := rejects r |}.

Definition fresh (rejects : call → option error) : recorder :=
  {| log := []; rejects := rejects |}.

Definition accepting : call → option error := λ _, None.

Global Instance recorder_RoleManager : RoleManager recorder := {|
  AddLink r name1 name2 domain :=
    let c := CallAddLink name1 name2 domain in (record r c, rejects r c);
  DeleteLink r name1 name2 domain :=
    let c := CallDeleteLink name1 name2 domain in (record r c, rejects r c);
  HasLink r name1 name2 domain := (false, None);
|}.

Global Instance recorder_ConditionalRoleManager
  : ConditionalRoleManager recorder := {|
  crm_RoleManager := recorder_RoleManager;
  SetLinkConditionFuncParams r user role params :=
    record r (CallSetLinkConditionFuncParams user role params);
  SetDomainLinkConditionFuncParams r user role domain params :=
    record r (CallSetDomainLinkConditionFuncParams user role domain params);
|}.

End Recorder.

(** *** Vocabulary: strings *)
Section StringVocabulary.
Import GoStr.

(** [c] occurs in [s]. *)
Fixpoint occurs (c : ascii) (s : string) : Prop :=
  match s with
  | "" => False
  | String d r => d = c ∨ occurs c r
  end.

(** The part of [s] before the first occurrence of [c]; the whole of [s]
    when [c] does not occur. *)
Fixpoint before_first (c : ascii) (s : string) : string :=
  match s with
  | "" => ""
  | String d r => if Ascii.eqb d c then "" else String d (before_first c r)
  end.

(** [p] is a prefix of [a]. *)
Definition is_prefix (p a : string) : Prop := ∃ t, a = p +:+ t.

(** The last byte of a string. *)
Fixpoint lastByte (s : string) : option ascii :=
  match s with
  | "" => None
  | String c "" => Some c
  | String _ r => lastByte r
  end.

End StringVocabulary.

(** *** Vocabulary: the bounds of [TimeMatch] *)
Section TimeMatchVocabulary.
Import Go GoTime Util.
Variable now : Time.
Variable Parse : string → string → Time + error.

(** A bound is "_" or parses in the layout. *)
Definition validBound (s : string) : Prop :=
  s = "_" ∨ ∃ t, Parse layoutDateTime s = inl t.

(** The current time is at or after the start bound. *)
Definition notBeforeStart (startTime : string) : Prop :=
  startTime = "_" ∨ ∃ t, Parse layoutDateTime startTime = inl t ∧ t ≤ now.

(** The current time is strictly after the start bound. *)
Definition afterStart (startTime : string) : Prop :=
  startTime = "_" ∨ ∃ t, Parse layoutDateTime startTime = inl t ∧ t < now.

(** The current time is strictly before the end bound. *)
Definition beforeEnd (endTime : string) : Prop :=
  endTime = "_" ∨ ∃ t, Parse layoutDateTime endTime = inl t ∧ now < t.

(** The half-open reading [[start, end)] of the interval. *)
Definition TimeMatch_half_open (startTime endTime : string) : Prop :=
  validBound startTime → validBound endTime →
  ((TimeMatch now Parse startTime endTime).1 = true
   ↔ notBeforeStart startTime ∧ beforeEnd endTime).

(** 2024-01-01 00:00:00 UTC, in nanoseconds since the epoch. *)
Definition newYear2024 : Time := 1704067200000000000.

End TimeMatchVocabulary.

(** *** Vocabulary: the lines that [LoadPolicyLine] reads *)
Section LoadPolicyVocabulary.
Import Go GoStr Model PolicyStore Persist.
Variable sep : string.
Variable csvRead : csvReader → string → list string + error.

(** The reader settings of [LoadPolicyLine]: fields separated by commas,
    with their leading white space trimmed. *)
Definition policyReader : csvReader :=
  {| Comma := ","; Comment := "#"; TrimLeadingSpace := true |}.

(** The line begins with ['#']. *)
Definition isComment (line : string) : Prop := ∃ rest, line = String "#" rest.

(** Every stored rule is indexed at its position (invariant 1 of the
    policy store). *)
Definition indexed (ast : Assertion) : Prop :=
  ∀ i rule, Policy ast !! i = Some rule →
            PolicyMap ast !! canonical sep rule = Some i.

(** Every entry of the index is the canonical form of the rule stored at
    its position. *)
Definition indexSound (ast : Assertion) : Prop :=
  ∀ text i, PolicyMap ast !! text = Some i →
            ∃ stored, Policy ast !! i = Some stored ∧ canonical sep stored = text.

(** No stored rule other than [rule] has the canonical form of [rule]. *)
Definition canonicalDistinct (ast : Assertion) (rule : list string) : Prop :=
  ∀ stored, stored ∈ Policy ast →
            canonical sep stored = canonical sep rule → stored = rule.

(** The rule is in the policy of the assertion under [(sec, key)]. *)
Definition storedUnder (m : Model) (sec key : string) (rule : list string)
  : Prop :=
  ∃ ast, GetAssertion m sec key = Some ast ∧ rule ∈ Policy ast.

(** A line that is neither empty nor a comment, and that the reader
    splits into the first field [key] and the fields [rule], is loaded with
    a nil result, after which [rule] is stored under the section [key[:1]]
    and the key [key]. *)
Definition LoadPolicyLine_stores_every_record (line : string) (m : Model)
  : Prop :=
  line ≠ "" → ¬ isComment line →
  ∀ key rule, csvRead policyReader line = inl (key :: rule) →
    ∃ m', LoadPolicyLine sep csvRead line m = Done m' None
          ∧ storedUnder m' (stake 1 key) key rule.

(** The assertion [key = value] with the given tokens and no rule. *)
Definition emptyAssertion (key value : string) (tokens paramsTokens : list string)
  : Assertion :=
  {| Key := key; Value := value; Tokens := tokens; ParamsTokens := paramsTokens;
     Policy := []; PolicyMap := ∅; FieldIndexMap := ∅ |}.

(** The assertion [p = sub, obj, act] of the basic models, without rules. *)
Definition emptyP : Assertion :=
  emptyAssertion "p" "sub, obj, act" ["p_sub"; "p_obj"; "p_act"] [].

(** A model whose policy store has the assertion [p] only, without rules. *)
Definition emptyModel : Model := {[ "p" := {[ "p" := emptyP ]} ]}.

Definition aliceRule : list string := ["alice"; "data1"; "read"].

(** [emptyModel] after the rule [aliceRule] has been added under [p]. *)
Definition aliceModel : Model :=
  {[ "p" := {[ "p" := appendRule "," emptyP aliceRule ]} ]}.

End LoadPolicyVocabulary.

(** *** Vocabulary: the calls of the role-link builders *)
Section RoleLinkVocabulary.
Import Go Rbac Model PolicyStore Recorder.

(** The assertion [g = value] with the given tokens, after the rules of
    [policy] have been added in order. *)
Definition gAssertion (value : string) (tokens paramsTokens : list string)
    (policy : list (list string)) : Assertion :=
  foldl (appendRule ",") (emptyAssertion "g" value tokens paramsTokens) policy.







(** The assertion [g = _, _, (_, _)] of the temporal-roles model, with one
    rule that carries a field past the declared positions. *)
Definition temporalAssertion : Assertion :=
  gAssertion "_, _, (_, _)" ["_"; " _"] ["_"; " _"]
    [["alice"; "data2_admin"; "2024-01-01 00:00:00"; "_"; "extra"]].

End RoleLinkVocabulary.

(** *** Vocabulary: the text that [SavePolicy] writes *)
Section SavePolicyVocabulary.
Import Go GoStr Model PolicyStore FileAdapter.

(** The byte of a newline. *)
Definition newlineByte : ascii := ascii_of_nat 10.

(** The text ends in a newline. *)
Definition endsInNewline (text : string) : Prop := ∃ p, text = p +:+ newline.

(** The rules of one entry of a section, with the key of the entry, in
    stored order. *)
Definition entryRules (entry : string * Assertion)
  : list (string * list string) :=
  (λ rule, (entry.1, rule)) <$> Policy entry.2.

(** The rules met when the entries are visited in the given order. *)
Definition visitRules (visit : list (string * Assertion))
  : list (string * list string) :=
  flat_map entryRules visit.

(** The line of a rule: [key, field1, field2, ...]. *)
Definition ruleLine (rule : string * list string) : string :=
  rule.1 +:+ ", " +:+ Join rule.2 ", ".

(** Every line followed by a newline. *)
Definition unlines (lines : list string) : string :=
  foldr (λ line text, line +:+ newline +:+ text) "" lines.

(** Neither the key nor a field of the rule holds a newline. *)
Definition newlineFree (rule : string * list string) : Prop :=
  ¬ occurs newlineByte rule.1 ∧ Forall (λ field, ¬ occurs newlineByte field) rule.2.

(** The assertion [p] of the RBAC model with two rules. *)
Definition rbacP : Assertion :=
  appendRule "," (appendRule "," emptyP aliceRule) ["bob"; "data2"; "write"].

(** The assertion [g = _, _] of the RBAC model with one rule. *)
Definition rbacG : Assertion :=
  gAssertion "_, _" ["_"; " _"] [] [["alice"; "data2_admin"]].

(** The policy store of the RBAC model. *)
Definition rbacModel : Model :=
  {[ "p" := {[ "p" := rbacP ]}; "g" := {[ "g" := rbacG ]} ]}.

(** An adapter on the file [policy.csv]. *)
Definition policyCsv : Adapter := {| filePath := "policy.csv" |}.

(** A storage without files, on which every file can be created. *)
Definition emptyDisk : FileSystem := {| files := ∅; refused := ∅ |}.

End SavePolicyVocabulary.

(** *** Vocabulary: further properties *)
Section FurtherVocabulary.
Import Go GoStr Rbac Model PolicyStore FileAdapter Recorder Util.

(** Two positions of [tokens] with the same token have the same value in
    [matches]. *)
Definition tokensAgree (tokens matches : list string) : Prop :=
  ∀ i j token, tokens !! i = Some token → tokens !! j = Some token →
               matches !! i = matches !! j.

(** An engine that knows the two expressions of the documented example
    of [KeyMatch4], the pattern [/parent/{id}/child/{id}]: it finds the two
    tokens of the pattern, and in a key the two segments after [/parent/]
    and [/child/] that the caller supplies. *)
Definition exampleEngine (segments : option (string * string)) : RegexpSubmatch :=
  {| regexp_FindAllString _ _ := ["{id}"; "{id}"];
     regexp_ReplaceAllStringFunc _ _ repl :=
       "/parent/" +:+ repl "{id}" +:+ "/child/" +:+ repl "{id}";
     regexp_FindStringSubmatch _ key1 :=
       Returns (match segments with
                | Some (first, second) => Some [key1; first; second]
                | None => None
                end) |}.

(** The outcome [o] followed, when it is a nil result, by [k] on the
    state reached. *)
Definition andThen {S : Type} (o : outcome S) (k : S → outcome S) : outcome S :=
  match o with
  | Done s None => k s
  | stop => stop
  end.

(** The ASCII white space: tab, line feed, vertical tab, form feed,
    carriage return and space. *)
Definition asciiSpaces : string :=
  String (ascii_of_nat 9) (String (ascii_of_nat 10) (String (ascii_of_nat 11)
    (String (ascii_of_nat 12) (String (ascii_of_nat 13) " ")))).

(** [strings.TrimSpace] on strings whose white space is ASCII; a stand-in
    to run the loaders on concrete files. *)
Definition trimAsciiSpace (s : string) : string :=
  TrimRight (Persist.trimLeft s) asciiSpaces.

(** The lines that a [bufio.Scanner] returns on a short file of lines
    that end in a line feed, with no error; a stand-in to run [LoadPolicy]
    on concrete files. *)
Definition scanPlainLines (content : string) : list string * option error :=
  ((λ line, TrimRight line newline)
     <$> filter (λ line, line ≠ "") (readStrings content), None).

(** A storage with the policy file of two lines, the second of which
    names an assertion [q] that [emptyModel] does not have. *)
Definition twoLineDisk : FileSystem :=
  {| files := {[ "policy.csv" :=
                   "p, alice, data1, read" +:+ newline +:+ "q, bob, data2, write"
                   +:+ newline +:+ "p, carol, data3, read" +:+ newline ]};
     refused := ∅ |}.

(** A storage with the policy file of the one line of [aliceRule]. *)
Definition aliceDisk : FileSystem :=
  {| files := {[ "policy.csv" := "p, alice, data1, read" +:+ newline ]};
     refused := ∅ |}.

(** A storage with an empty policy file. *)
Definition emptyFileDisk : FileSystem :=
  {| files := {[ "policy.csv" := "" ]}; refused := ∅ |}.

(** A mock adapter on the file [policy.csv]. *)
Definition policyCsvMock : AdapterMock := NewAdapterMock "policy.csv".


End FurtherVocabulary.

(** *** Vocabulary: the calls that reach a role manager *)
Section RoleLinkCallVocabulary.
Import Go Rbac Model Recorder.





End RoleLinkCallVocabulary.

(** ** Part II: properties *)

(** *** Facts about the string primitives *)
Section GoStrFacts.
Import GoStr.

Lemma str_app_cons (c : ascii) (s t : string) :
  String c s +:+ t = String c (s +:+ t).
Proof. reflexivity. Qed.

Lemma str_app_nil_l (s : string) : "" +:+ s = s.
Proof. reflexivity. Qed.

Lemma before_first_split (c : ascii) (p t : string) :
  ¬ occurs c p → before_first c (p +:+ String c t) = p.
Proof.
  induction p as [|d p IH]; intros Hno.
  - rewrite str_app_nil_l. cbn. by rewrite Ascii.eqb_refl.
  - rewrite str_app_cons. cbn. destruct (Ascii.eqb_spec d c) as [->|Hne].
    + exfalso. apply Hno. by left.
    + rewrite IH; [done|]. intros Ho. apply Hno. by right.
Qed.

Lemma before_first_absent (c : ascii) (s : string) :
  ¬ occurs c s → before_first c s = s.
Proof.
  induction s as [|d s IH]; intros Hno; cbn; [done|].
  destruct (Ascii.eqb_spec d c) as [->|Hne].
  - exfalso. apply Hno. by left.
  - rewrite IH; [done|]. intros Ho. apply Hno. by right.
Qed.

Lemma str_app_nil_r (s : string) : s +:+ "" = s.
Proof. induction s as [|c s IH]; [done|]. by rewrite str_app_cons, IH. Qed.

Lemma str_app_assoc (s t u : string) : (s +:+ t) +:+ u = s +:+ t +:+ u.
Proof. induction s as [|c s IH]; [done|]. by rewrite !str_app_cons, IH. Qed.

Lemma str_len_app (s t : string) : len (s +:+ t) = (len s + len t)%nat.
Proof.
  induction s as [|c s IH]; [done|]. rewrite str_app_cons. cbn. by rewrite IH.
Qed.

Lemma stake_sdrop (n : nat) (s : string) : stake n s +:+ sdrop n s = s.
Proof.
  revert s; induction n as [|n IH]; intros [|c s]; cbn; try done.
  by rewrite str_app_cons, IH.
Qed.

Lemma stake_app_len (p t : string) : stake (len p) (p +:+ t) = p.
Proof.
  induction p as [|c p IH]; [by destruct t|].
  rewrite str_app_cons. cbn. by rewrite IH.
Qed.

Lemma index_from_absent (c : ascii) (s : string) (i : Z) :
  ¬ occurs c s → index_from i s (String c "") = -1.
Proof.
  revert i; induction s as [|d s IH]; intros i Hno; cbn; [done|].
  rewrite andb_true_r. destruct (Ascii.eqb_spec d c) as [->|Hne].
  - exfalso. apply Hno. by left.
  - apply IH. intros Ho. apply Hno. by right.
Qed.

Lemma index_from_first (c : ascii) (p t : string) (i : Z) :
  ¬ occurs c p →
  index_from i (p +:+ String c t) (String c "") = i + Z.of_nat (len p).
Proof.
  revert i; induction p as [|d p IH]; intros i Hno;
    [rewrite str_app_nil_l|rewrite str_app_cons]; cbn.
  - rewrite Ascii.eqb_refl. cbn. lia.
  - rewrite andb_true_r. destruct (Ascii.eqb_spec d c) as [->|Hne].
    + exfalso. apply Hno. by left.
    + rewrite IH; [lia|]. intros Ho. apply Hno. by right.
Qed.

(** Every string splits at the first occurrence of [c], when there is one. *)
Lemma index_from_found (c : ascii) (s : string) (i : Z) :
  index_from i s (String c "") ≠ -1 → 0 ≤ i →
  ∃ p t, s = p +:+ String c t ∧ ¬ occurs c p
         ∧ index_from i s (String c "") = i + Z.of_nat (len p).
Proof.
  revert i; induction s as [|d s IH]; intros i; cbn; [done|].
  rewrite andb_true_r. destruct (Ascii.eqb_spec d c) as [->|Hne]; intros Hi Hpos.
  - exists "", s. split; [done|]. split; [by intros []|]. cbn. lia.
  - destruct (IH (i + 1) Hi) as (p & t & -> & Hno & Heq); [lia|].
    exists (String d p), t. split; [done|]. split.
    + intros [?|?]; [done|by apply Hno].
    + rewrite Heq. cbn. lia.
Qed.

End GoStrFacts.

(** *** KeyMatch and KeyGet *)
Section KeyMatchFacts.
Import GoStr Util.

Lemma KeyMatch_no_star (a b : string) :
  ¬ occurs "*" b → (KeyMatch a b = true ↔ a = b).
Proof.
  intros Hno. unfold KeyMatch, Index. rewrite index_from_absent by done.
  cbn. apply String.eqb_eq.
Qed.

Lemma KeyMatch_star_prefix (a p t : string) :
  ¬ occurs "*" p → (KeyMatch a (p +:+ String "*" t) = true ↔ is_prefix p a).
Proof.
  intros Hno. unfold KeyMatch, Index, slice_to.
  rewrite index_from_first by done. rewrite Z.add_0_l, Nat2Z.id.
  destruct (Z.eqb_spec (Z.of_nat (len p)) (-1)) as [?|_]; [lia|].
  rewrite stake_app_len, Z.gtb_ltb.
  destruct (Z.ltb_spec (Z.of_nat (len p)) (Z.of_nat (len a))) as [Hlt|Hge];
    rewrite String.eqb_eq.
  - split.
    + intros <-. exists (sdrop (len p) a). by rewrite stake_sdrop.
    + intros [u ->]. by rewrite stake_app_len.
  - split.
    + intros ->. exists "". by rewrite str_app_nil_r.
    + intros [u ->]. rewrite str_len_app in Hge.
      destruct u; [by rewrite str_app_nil_r|cbn in Hge; lia].
Qed.

(** C7: when the pattern [b] has no ['*'], [KeyMatch a b] holds exactly
    when [a] equals [b]; when [b] is a ['*']-free prefix [p] followed by
    ['*'], [KeyMatch a b] holds exactly when [p] is a prefix of [a]. *)
Theorem KeyMatch_exact_or_prefix (a b : string) :
  (¬ occurs "*" b → (KeyMatch a b = true ↔ a = b))
  ∧ (∀ p, b = p +:+ "*" → ¬ occurs "*" p →
          (KeyMatch a b = true ↔ is_prefix p a)).
Proof.
  split.
  - apply KeyMatch_no_star.
  - intros p -> Hp. by apply KeyMatch_star_prefix.
Qed.

Lemma KeyMatch_exact_or_prefix_witness :
  (KeyMatch "/foo/bar" "/foo/bar" = true ↔ "/foo/bar" = "/foo/bar")
  ∧ (KeyMatch "/foo/bar" "/foo/*" = true ↔ is_prefix "/foo/" "/foo/bar").
Proof.
  split.
  - apply (KeyMatch_exact_or_prefix "/foo/bar" "/foo/bar").
    cbn. intuition discriminate.
  - apply (proj2 (KeyMatch_exact_or_prefix "/foo/bar" "/foo/*") "/foo/").
    + reflexivity.
    + cbn. intuition discriminate.
Defined.

Lemma KeyGet_no_star (a b : string) : ¬ occurs "*" b → KeyGet a b = "".
Proof.
  intros Hno. unfold KeyGet, Index. by rewrite index_from_absent.
Qed.

Lemma KeyGet_nonempty (a b : string) :
  KeyGet a b ≠ "" →
  KeyMatch a b = true ∧ before_first "*" b +:+ KeyGet a b = a.
Proof.
  unfold KeyGet, KeyMatch, Index, slice_to, slice_from.
  destruct (Z.eqb_spec (index_from 0 b "*") (-1)) as [?|Hi]; [done|].
  destruct (index_from_found "*" b 0 Hi) as (p & t & -> & Hp & ->); [lia|].
  rewrite Z.add_0_l, Nat2Z.id, stake_app_len, before_first_split by done.
  destruct (Z.of_nat (len a) >? Z.of_nat (len p)); cbn [andb]; [|done].
  destruct (String.eqb_spec (stake (len p) a) p) as [Heq|?]; [|done].
  intros _. split; [done|]. rewrite <- Heq at 1. apply stake_sdrop.
Qed.

(** C10: [KeyGet a b] is empty when [b] has no ['*']; and when
    [KeyGet a b] is not empty, [KeyMatch a b] holds and the part of [b]
    before its first ['*'], followed by [KeyGet a b], is [a]. *)
Theorem KeyGet_sound (a b : string) :
  (¬ occurs "*" b → KeyGet a b = "")
  ∧ (KeyGet a b ≠ "" →
     KeyMatch a b = true ∧ before_first "*" b +:+ KeyGet a b = a).
Proof. split; [apply KeyGet_no_star|apply KeyGet_nonempty]. Qed.

Lemma KeyGet_sound_witness :
  KeyGet "/foo/bar/foo" "/foo" = ""
  ∧ KeyMatch "/foo/bar/foo" "/foo/*" = true
  ∧ before_first "*" "/foo/*" +:+ KeyGet "/foo/bar/foo" "/foo/*" = "/foo/bar/foo".
Proof.
  split.
  - apply (KeyGet_sound "/foo/bar/foo" "/foo"). cbn. intuition discriminate.
  - apply (KeyGet_sound "/foo/bar/foo" "/foo/*"). discriminate.
Defined.

Example KeyGet_doc_example : KeyGet "/foo/bar/foo" "/foo/*" = "bar/foo".
Proof. reflexivity. Qed.

End KeyMatchFacts.

(** *** KeyMatch5 against KeyMatch3 *)
Section KeyMatch5Facts.
Import Go GoStr Util.
Context `{Regexp}.

Lemma index_from_none (c : ascii) (s : string) (i : Z) :
  0 ≤ i → index_from i s (String c "") = -1 → before_first c s = s.
Proof.
  revert i; induction s as [|d s IH]; intros i Hi; cbn; [done|].
  rewrite andb_true_r. destruct (Ascii.eqb d c); [lia|].
  intros Hs. f_equal. apply (IH (i + 1)); [lia|done].
Qed.

(** The slicing [key1[:i]] that [KeyMatch5] performs when [key1] holds a
    ['?'] cuts [key1] at its first ['?']. *)
Lemma strip_query_before_first (key1 : string) :
  (let i := Index key1 "?" in
   if negb (i =? -1) then slice_to key1 i else key1) = before_first "?" key1.
Proof.
  cbn zeta. unfold Index, slice_to.
  destruct (Z.eqb_spec (index_from 0 key1 "?") (-1)) as [Hi|Hi]; cbn [negb].
  - symmetry. by apply (index_from_none "?" key1 0).
  - destruct (index_from_found "?" key1 0 Hi) as (p & t & -> & Hp & ->); [lia|].
    by rewrite Z.add_0_l, Nat2Z.id, stake_app_len, before_first_split.
Qed.

(** C8: [KeyMatch5 a b] is [KeyMatch3 a' b], where [a'] is [a] cut at its
    first ['?'] (and [a] itself when it holds no ['?']); this covers the
    panic of an expression that does not compile, which both raise. *)
Theorem KeyMatch5_is_KeyMatch3_without_query (a b : string) :
  KeyMatch5 a b = KeyMatch3 (before_first "?" a) b.
Proof.
  unfold KeyMatch5, KeyMatch3. cbn zeta.
  pose proof (strip_query_before_first a) as Hcut. cbn zeta in Hcut.
  rewrite Hcut. reflexivity.
Qed.

Example strip_query_example :
  before_first "?" "/foo/bar?status=1&type=2" = "/foo/bar".
Proof. reflexivity. Qed.

End KeyMatch5Facts.

(** *** TimeMatch *)
Section TimeMatchFacts.
Import Go GoTime Util.
Variable now : Time.
Variable Parse : string → string → Time + error.

Lemma TimeMatch_true_iff (startTime endTime : string) :
  (TimeMatch now Parse startTime endTime).1 = true
  ↔ afterStart now Parse startTime ∧ beforeEnd now Parse endTime.
Proof.
  unfold TimeMatch, afterStart, beforeEnd, After, Before, layoutDateTime.
  destruct (String.eqb_spec startTime "_") as [->|Hs]; cbn [negb].
  - destruct (String.eqb_spec endTime "_") as [->|He]; cbn [negb].
    + cbn. intuition.
    + destruct (Parse _ endTime) as [t|err] eqn:Ht.
      * destruct (Z.ltb_spec now t) as [Hlt|Hge]; cbn.
        -- split; [|done]. intros _. split; [by left|]. right. by exists t.
        -- split; [done|]. intros [_ [?|(u & [= ->] & ?)]]; [done|lia].
      * cbn. split; [done|]. by intros [_ [?|(u & ? & ?)]].
  - destruct (Parse _ startTime) as [t|err] eqn:Ht.
    + destruct (Z.ltb_spec t now) as [Hlt|Hge]; cbn [negb].
      * destruct (String.eqb_spec endTime "_") as [->|He]; cbn [negb].
        -- cbn. split; [|done]. intros _. split; [|by left]. right. by exists t.
        -- destruct (Parse _ endTime) as [u|err] eqn:Hu.
           ++ destruct (Z.ltb_spec now u) as [Hlt'|Hge']; cbn.
              ** split; [|done]. intros _.
                 split; right; [by exists t|by exists u].
              ** split; [done|]. intros [_ [?|(v & [= ->] & ?)]]; [done|lia].
           ++ cbn. split; [done|]. by intros [_ [?|(v & ? & ?)]].
      * cbn. split; [done|]. intros [[?|(v & [= ->] & ?)] _]; [done|lia].
    + cbn. split; [done|]. by intros [[?|(v & ? & ?)] _].
Qed.

Lemma TimeMatch_valid_no_error (startTime endTime : string) :
  validBound Parse startTime → validBound Parse endTime →
  (TimeMatch now Parse startTime endTime).2 = None.
Proof.
  unfold TimeMatch, validBound, layoutDateTime.
  intros Hs He.
  destruct (String.eqb_spec startTime "_") as [->|Hs']; cbn [negb].
  - destruct (String.eqb_spec endTime "_") as [->|He']; cbn [negb]; [done|].
    destruct He as [?|[t ->]]; [done|]. by destruct (negb _).
  - destruct Hs as [?|[t ->]]; [done|]. destruct (negb _); [done|].
    destruct (String.eqb_spec endTime "_") as [->|He']; cbn [negb]; [done|].
    destruct He as [?|[u ->]]; [done|]. by destruct (negb _).
Qed.

Lemma TimeMatch_bad_start (startTime endTime : string) :
  ¬ validBound Parse startTime →
  ∃ err, TimeMatch now Parse startTime endTime = (false, Some err).
Proof.
  unfold TimeMatch, validBound, layoutDateTime. intros Hs.
  destruct (String.eqb_spec startTime "_") as [->|Hs']; cbn [negb].
  - exfalso. apply Hs. by left.
  - destruct (Parse _ startTime) as [t|err] eqn:Ht; [|by exists err].
    exfalso. apply Hs. right. by exists t.
Qed.

Lemma TimeMatch_bad_end (startTime endTime : string) :
  afterStart now Parse startTime → ¬ validBound Parse endTime →
  ∃ err, TimeMatch now Parse startTime endTime = (false, Some err).
Proof.
  unfold TimeMatch, afterStart, validBound, After, layoutDateTime.
  intros Hs He.
  assert (∃ err, (if negb (String.eqb endTime "_")
                  then match Parse "2006-01-02 15:04:05" endTime with
                       | inl end_ => if negb (Before now end_)
                                     then Some (false, None) else None
                       | inr err => Some (false, Some err)
                       end
                  else None) = Some (false, Some err)) as [err Herr].
  { destruct (String.eqb_spec endTime "_") as [->|He']; cbn [negb].
    - exfalso. apply He. by left.
    - destruct (Parse _ endTime) as [t|err] eqn:Ht; [|by exists err].
      exfalso. apply He. right. by exists t. }
  exists err.
  destruct (String.eqb_spec startTime "_") as [->|Hs']; cbn [negb].
  - by rewrite Herr.
  - destruct Hs as [?|(t & -> & Hlt)]; [done|].
    destruct (Z.ltb_spec t now) as [_|?]; [|lia]. cbn [negb]. by rewrite Herr.
Qed.

(** C3, as amended: [TimeMatch] returns true exactly when the current
    time is strictly after the start bound and strictly before the end
    bound, a bound "_" being no bound; valid bounds give no error, a start
    that is neither "_" nor parsable gives an error, and so does such an end
    when the start check has passed. *)
Theorem TimeMatch_open_interval (startTime endTime : string) :
  ((TimeMatch now Parse startTime endTime).1 = true
   ↔ afterStart now Parse startTime ∧ beforeEnd now Parse endTime)
  ∧ (validBound Parse startTime → validBound Parse endTime →
     (TimeMatch now Parse startTime endTime).2 = None)
  ∧ (¬ validBound Parse startTime →
     ∃ err, TimeMatch now Parse startTime endTime = (false, Some err))
  ∧ (afterStart now Parse startTime → ¬ validBound Parse endTime →
     ∃ err, TimeMatch now Parse startTime endTime = (false, Some err)).
Proof.
  split; [apply TimeMatch_true_iff|].
  split; [apply TimeMatch_valid_no_error|].
  split; [apply TimeMatch_bad_start|apply TimeMatch_bad_end].
Qed.

End TimeMatchFacts.

Section TimeMatchExamples.
Import Go GoTime Util.

Example ParseCanonical_newYear2024 :
  ParseCanonical layoutDateTime "2024-01-01 00:00:00" = inl newYear2024.
Proof. reflexivity. Qed.

(** C3, as stated, fails at the instant of the start bound: the current
    time is then inside [[start, end)], and [TimeMatch] returns false. *)
Lemma TimeMatch_half_open_fails_at_start :
  ¬ TimeMatch_half_open newYear2024 ParseCanonical "2024-01-01 00:00:00" "_".
Proof.
  intros Hclaim.
  assert ((TimeMatch newYear2024 ParseCanonical "2024-01-01 00:00:00" "_").1
          = true) as Htrue.
  { apply Hclaim.
    - right. by exists newYear2024.
    - by left.
    - split; [|by left]. right. exists newYear2024. split; [done|lia]. }
  vm_compute in Htrue. discriminate.
Qed.

Lemma TimeMatch_open_interval_witness :
  (TimeMatch (newYear2024 + 1) ParseCanonical
     "2024-01-01 00:00:00" "2024-12-31 23:59:59").2 = None
  ∧ (∃ err, TimeMatch (newYear2024 + 1) ParseCanonical "yesterday" "_"
            = (false, Some err))
  ∧ (∃ err, TimeMatch (newYear2024 + 1) ParseCanonical
              "2024-01-01 00:00:00" "tomorrow" = (false, Some err)).
Proof.
  pose proof (TimeMatch_open_interval (newYear2024 + 1) ParseCanonical
                "2024-01-01 00:00:00" "2024-12-31 23:59:59") as (_ & Hok & _).
  pose proof (TimeMatch_open_interval (newYear2024 + 1) ParseCanonical
                "yesterday" "_") as (_ & _ & Hstart & _).
  pose proof (TimeMatch_open_interval (newYear2024 + 1) ParseCanonical
                "2024-01-01 00:00:00" "tomorrow") as (_ & _ & _ & Hend).
  split; [|split].
  - apply Hok; right; eexists; vm_compute; reflexivity.
  - apply Hstart. intros [?|[t ?]]; discriminate.
  - apply Hend.
    + right. exists newYear2024. split; [reflexivity|unfold newYear2024; lia].
    + intros [?|[t ?]]; discriminate.
Defined.

End TimeMatchExamples.

(** *** The g-functions *)
Section GFunctionFacts.
Import Go Rbac Util.
Context {RM : Type} `{!RoleManager RM}.

Lemma GFunction_error_nil (rm : option RM) (memorized memorized' : gmap string bool)
    (args : list iface) (v : iface) (err : option error) :
  GFunction rm memorized args = Returns (v, err, memorized') → err = None.
Proof.
  unfold GFunction. destruct (assertStrings args) as [strs|]; [|done].
  destruct (memorized !! cacheKey strs); [by intros [= _ <- _]|].
  destruct strs as [|name1 [|name2 rest]]; [done..|]. by intros [= _ <- _].
Qed.

Lemma ConditionalGFunction_error_nil (crm : option RM) (args : list iface)
    (v : iface) (err : option error) :
  ConditionalGFunction crm args = Returns (v, err) → err = None.
Proof.
  unfold ConditionalGFunction.
  destruct args as [|[name1| |] [|[name2| |] rest]]; try done.
  destruct crm as [crm|]; [|by intros [= _ <-]].
  destruct rest as [|[domain| |] rest]; try done; by intros [= _ <-].
Qed.

Lemma ConditionalGFunction_nil_manager (name1 name2 : string) (rest : list iface) :
  ConditionalGFunction None (IString name1 :: IString name2 :: rest)
  = Returns (IBool (String.eqb name1 name2), None).
Proof. reflexivity. Qed.

Lemma assertStrings_strings (strs : list string) :
  assertStrings (IString <$> strs) = Some strs.
Proof. induction strs as [|s strs IH]; [done|]. cbn. by rewrite IH. Qed.

(** A call whose cache key is not stored computes the equality and stores
    it under that key. *)
Lemma GFunction_nil_manager_miss (memorized : gmap string bool)
    (name1 name2 : string) (rest : list string) :
  memorized !! cacheKey (name1 :: name2 :: rest) = None →
  GFunction None memorized (IString <$> name1 :: name2 :: rest)
  = Returns (IBool (String.eqb name1 name2), None,
             <[cacheKey (name1 :: name2 :: rest) := String.eqb name1 name2]>
               memorized).
Proof.
  intros Hmiss. unfold GFunction.
  rewrite assertStrings_strings. by rewrite Hmiss.
Qed.

(** A call whose cache key is stored returns the stored value, whatever
    its arguments are. *)
Lemma GFunction_hit (rm : option RM) (memorized : gmap string bool)
    (strs : list string) (v : bool) :
  memorized !! cacheKey strs = Some v →
  GFunction rm memorized (IString <$> strs) = Returns (IBool v, None, memorized).
Proof.
  intros Hhit. unfold GFunction. rewrite assertStrings_strings. by rewrite Hhit.
Qed.

(** C9, at the failing input: with a nil role manager, after the call
    [g(a, a)] for [a] the bytes [p 0 q], the call [g("p", b)] for [b] the
    bytes [q 0 p 0 q] has the same cache key and returns the stored [true],
    while ["p"] and [b] differ. *)
Theorem GFunction_nil_manager_cache_key_collision :
  let a := "p" +:+ String Ascii.zero "q" in
  let b := "q" +:+ String Ascii.zero a in
  ∃ memorized,
    GFunction None ∅ [IString a; IString a] = Returns (IBool true, None, memorized)
    ∧ GFunction None memorized [IString "p"; IString b]
      = Returns (IBool true, None, memorized)
    ∧ String.eqb "p" b = false
    ∧ cacheKey [a; a] = cacheKey ["p"; b].
Proof.
  cbn zeta.
  set (a := "p" +:+ String Ascii.zero "q").
  set (b := "q" +:+ String Ascii.zero a).
  exists (<[cacheKey [a; a] := true]> ∅).
  split; [|split; [|split]].
  - by rewrite (GFunction_nil_manager_miss ∅ a a []).
  - apply (GFunction_hit None _ ["p"; b] true).
    replace (cacheKey ["p"; b]) with (cacheKey [a; a]) by reflexivity.
    apply lookup_insert_eq.
  - reflexivity.
  - reflexivity.
Qed.

End GFunctionFacts.

(** *** Role links: arity of the rules *)
Section RoleLinkFacts.
Import Go Rbac Model Recorder.
Context {RM : Type} `{!RoleManager RM}.












End RoleLinkFacts.

Section RoleLinkExamples.
Import Go Rbac Model Recorder.


Example buildRoleLinks_drops_extra_field :
  buildRoleLinks (gAssertion "_, _" ["_"; " _"] [] [["alice"; "admin"; "extra"]])
                 (fresh accepting)
  = Done {| log := [CallAddLink "alice" "admin" []]; rejects := accepting |} None.
Proof. reflexivity. Qed.

End RoleLinkExamples.

(** *** Role links: what a manager receives *)
Section ConditionalRoleLinkFacts.
Import Go Rbac Model Recorder.






End ConditionalRoleLinkFacts.

Section ConditionalRoleLinkExamples.
Import Go Rbac Model Recorder.




End ConditionalRoleLinkExamples.

(** *** Trimming on the right *)
Section TrimFacts.
Import GoStr.

Lemma lastByte_cons (c : ascii) (r : string) :
  r ≠ "" → lastByte (String c r) = lastByte r.
Proof. by destruct r. Qed.

Lemma lastByte_app (s t : string) : t ≠ "" → lastByte (s +:+ t) = lastByte t.
Proof.
  intros Ht. induction s as [|c s IH]; [done|].
  rewrite str_app_cons, lastByte_cons; [done|].
  destruct s; [by rewrite str_app_nil_l|by rewrite str_app_cons].
Qed.

Lemma lastByte_snoc (s : string) (c : ascii) :
  lastByte (s +:+ String c "") = Some c.
Proof. by rewrite lastByte_app. Qed.

Lemma lastByte_occurs (s : string) (c : ascii) : lastByte s = Some c → occurs c s.
Proof.
  induction s as [|d s IH]; [done|]. destruct s as [|e s].
  - intros [= ->]. by left.
  - rewrite lastByte_cons by done. intros Hl. right. by apply IH.
Qed.

Lemma occurs_app (c : ascii) (s t : string) :
  occurs c (s +:+ t) ↔ occurs c s ∨ occurs c t.
Proof.
  induction s as [|d s IH].
  - rewrite str_app_nil_l. cbn. tauto.
  - rewrite str_app_cons. cbn. rewrite IH. tauto.
Qed.

Lemma TrimRight_last (s cutset : string) (c : ascii) :
  lastByte (TrimRight s cutset) = Some c → contains_byte cutset c = false.
Proof.
  induction s as [|d s IH]; [done|]. cbn [TrimRight].
  destruct (TrimRight s cutset) as [|e r] eqn:Htrim.
  - destruct (contains_byte cutset d) eqn:Hd; [done|]. by intros [= <-].
  - rewrite lastByte_cons by done. apply IH.
Qed.

Lemma TrimRight_id (s cutset : string) :
  (∀ c, lastByte s = Some c → contains_byte cutset c = false) →
  TrimRight s cutset = s.
Proof.
  induction s as [|d s IH]; [done|]. intros Hlast. cbn [TrimRight].
  destruct s as [|e s].
  - cbn. by rewrite (Hlast d).
  - rewrite IH; [done|]. intros c Hc. apply Hlast. by rewrite lastByte_cons.
Qed.

Lemma TrimRight_snoc (s cutset : string) (c : ascii) :
  contains_byte cutset c = true →
  TrimRight (s +:+ String c "") cutset = TrimRight s cutset.
Proof.
  intros Hc. induction s as [|d s IH].
  - rewrite str_app_nil_l. cbn. by rewrite Hc.
  - rewrite str_app_cons. cbn [TrimRight]. by rewrite IH.
Qed.

End TrimFacts.

(** *** SavePolicy *)
Section SavePolicyFacts.
Import Go GoStr Model PolicyStore FileAdapter.

Lemma unlines_cons (l : string) (ls : list string) :
  unlines (l :: ls) = l +:+ newline +:+ unlines ls.
Proof. reflexivity. Qed.

Lemma unlines_app (ls ls' : list string) :
  unlines (ls ++ ls') = unlines ls +:+ unlines ls'.
Proof.
  induction ls as [|l ls IH]; [done|].
  by rewrite <- app_comm_cons, !unlines_cons, IH, !str_app_assoc.
Qed.

Lemma writeRules_unlines (ptype : string) (ast : Assertion) (tmp : string) :
  writeRules ptype ast tmp = tmp +:+ unlines (ruleLine <$> entryRules (ptype, ast)).
Proof.
  unfold writeRules, entryRules. cbn [fst snd].
  revert tmp; induction (Policy ast) as [|rule rules IH]; intros tmp.
  - cbn. by rewrite str_app_nil_r.
  - cbn [fold_left fmap list_fmap]. rewrite IH, unlines_cons.
    unfold ruleLine, ArrayToString. cbn [fst snd]. by rewrite !str_app_assoc.
Qed.

Lemma writeSection_unlines (visit : list (string * Assertion)) (tmp : string) :
  writeSection visit tmp = tmp +:+ unlines (ruleLine <$> visitRules visit).
Proof.
  unfold writeSection, visitRules.
  revert tmp; induction visit as [|[ptype ast] visit IH]; intros tmp.
  - cbn. by rewrite str_app_nil_r.
  - cbn [fold_left flat_map fst snd]. rewrite IH, writeRules_unlines.
    by rewrite fmap_app, unlines_app, str_app_assoc.
Qed.

Lemma unlines_Join (lines : list string) :
  lines ≠ [] → unlines lines = Join lines newline +:+ newline.
Proof.
  induction lines as [|l [|l' ls] IH]; [done| |]; intros _.
  - cbn. by rewrite str_app_nil_r.
  - rewrite unlines_cons, IH by done. cbn [Join]. by rewrite !str_app_assoc.
Qed.

Lemma lastByte_Join (lines : list string) (c : ascii) :
  Forall (λ line, line ≠ "" ∧ lastByte line ≠ Some c) lines →
  lastByte (Join lines newline) ≠ Some c.
Proof.
  induction 1 as [|l ls [Hne Hlast] Hall IH]; [done|].
  destruct ls as [|l' ls]; [done|]. cbn [Join].
  rewrite lastByte_app.
  - rewrite lastByte_app; [done|]. inversion Hall as [|? ? [Hne' _] _]; subst.
    destruct ls; [done|]. cbn [Join]. by destruct l'.
  - by unfold newline.
Qed.

Lemma occurs_Join (c : ascii) (fields : list string) (sep : string) :
  ¬ occurs c sep → Forall (λ field, ¬ occurs c field) fields →
  ¬ occurs c (Join fields sep).
Proof.
  intros Hsep. induction 1 as [|f fs Hf Hall IH]; [by intros []|].
  destruct fs as [|f' fs]; [done|]. cbn [Join].
  rewrite !occurs_app. tauto.
Qed.

Lemma ruleLine_last (rule : string * list string) :
  newlineFree rule → ruleLine rule ≠ "" ∧ lastByte (ruleLine rule) ≠ Some newlineByte.
Proof.
  intros [Hkey Hfields]. unfold ruleLine. split.
  - destruct (rule.1); [by rewrite str_app_nil_l|by rewrite str_app_cons].
  - intros Hlast%lastByte_occurs. rewrite !occurs_app in Hlast.
    destruct Hlast as [?|[Hsep|Hjoin]]; [done| |].
    + cbn in Hsep. unfold newlineByte in Hsep. intuition discriminate.
    + revert Hjoin. apply occurs_Join; [|done].
      cbn. unfold newlineByte. intuition discriminate.
Qed.

Lemma TrimRight_unlines (lines : list string) :
  Forall (λ line, line ≠ "" ∧ lastByte line ≠ Some newlineByte) lines →
  TrimRight (unlines lines) newline = Join lines newline.
Proof.
  intros Hall. destruct lines as [|l ls]; [done|].
  rewrite unlines_Join by done. unfold newline at 2.
  rewrite TrimRight_snoc by done. apply TrimRight_id.
  intros c Hc. destruct (contains_byte newline c) eqn:Hin; [|done].
  exfalso. apply (lastByte_Join (l :: ls) newlineByte Hall).
  rewrite Hc. f_equal. unfold newline in Hin. cbn in Hin.
  rewrite orb_false_r in Hin. by apply Ascii.eqb_eq in Hin.
Qed.

Lemma TrimRight_not_endsInNewline (s : string) :
  ¬ endsInNewline (TrimRight s newline).
Proof.
  intros [p Hp].
  assert (lastByte (TrimRight s newline) = Some newlineByte) as Hlast.
  { rewrite Hp. apply lastByte_snoc. }
  apply TrimRight_last in Hlast. by vm_compute in Hlast.
Qed.

(** C4: [SavePolicy] writes, to the file of the adapter, the lines of the
    rules of [model["p"]] followed by the lines of the rules of
    [model["g"]], every stored rule once and the rules of one assertion in
    stored order, every line being [key, field1, field2, ...]; the text
    written does not end in a newline, and when no key and no field holds a
    newline it is exactly the lines joined by newlines. *)
Theorem SavePolicy_writes_rules_in_order (a : Adapter) (model : Model)
    (pVisit gVisit : list (string * Assertion)) (fs : FileSystem) :
  filePath a ≠ "" → filePath a ∉ refused fs →
  rangeOrder (section model "p") pVisit →
  rangeOrder (section model "g") gVisit →
  let rules := visitRules pVisit ++ visitRules gVisit in
  ∃ text,
    SavePolicy a pVisit gVisit fs
    = ({| files := <[filePath a := text]> (files fs); refused := refused fs |},
       None)
    ∧ text = TrimRight (unlines (ruleLine <$> rules)) newline
    ∧ ¬ endsInNewline text
    ∧ visitRules pVisit ≡ₚ visitRules (map_to_list (section model "p"))
    ∧ visitRules gVisit ≡ₚ visitRules (map_to_list (section model "g"))
    ∧ (Forall newlineFree rules → text = Join (ruleLine <$> rules) newline).
Proof.
  intros Hpath Hcreate Hp Hg rules.
  exists (TrimRight (unlines (ruleLine <$> rules)) newline).
  split; [|split; [done|split; [apply TrimRight_not_endsInNewline|]]].
  - unfold SavePolicy, savePolicyFile.
    apply String.eqb_neq in Hpath. rewrite Hpath.
    rewrite bool_decide_eq_false_2 by done. cbn zeta.
    rewrite !writeSection_unlines, str_app_nil_l, <- unlines_app, <- fmap_app.
    done.
  - split; [|split].
    + unfold visitRules. by apply Permutation_flat_map.
    + unfold visitRules. by apply Permutation_flat_map.
    + intros Hfree. apply TrimRight_unlines.
      apply Forall_fmap. eapply Forall_impl; [exact Hfree|].
      intros rule Hrule. by apply ruleLine_last.
Qed.

End SavePolicyFacts.

Section SavePolicyExamples.
Import Go GoStr Model PolicyStore FileAdapter.

Lemma SavePolicy_writes_rules_in_order_witness :
  ∃ text,
    SavePolicy policyCsv [("p", rbacP)] [("g", rbacG)] emptyDisk
    = ({| files := {[ "policy.csv" := text ]}; refused := ∅ |}, None)
    ∧ text = Join ["p, alice, data1, read"; "p, bob, data2, write";
                   "g, alice, data2_admin"] newline.
Proof.
  destruct (SavePolicy_writes_rules_in_order policyCsv rbacModel
              [("p", rbacP)] [("g", rbacG)] emptyDisk)
    as (text & Hsave & _ & _ & _ & _ & Hexact).
  - discriminate.
  - apply not_elem_of_empty.
  - unfold rangeOrder. vm_compute. reflexivity.
  - unfold rangeOrder. vm_compute. reflexivity.
  - exists text. split; [exact Hsave|]. rewrite Hexact; [reflexivity|].
    repeat first [apply Forall_nil_2 | apply Forall_cons; split | split];
      cbn; unfold newlineByte; intuition discriminate.
Defined.

End SavePolicyExamples.

(** *** Loading policy lines *)
Section LoadPolicyFacts.
Import Go GoStr Model PolicyStore Persist.
Variable sep : string.
Variable csvRead : csvReader → string → list string + error.

Lemma HasPrefix_comment (line : string) :
  HasPrefix line "#" = true ↔ isComment line.
Proof.
  unfold isComment. destruct line as [|c rest]; cbn.
  - split; [done|]. by intros [? ?].
  - rewrite andb_true_r, Ascii.eqb_eq. split.
    + intros ->. by exists rest.
    + by intros [? [= -> _]].
Qed.

Lemma LoadPolicyLine_skips (line : string) (m : Model) :
  line = "" ∨ isComment line → LoadPolicyLine sep csvRead line m = Done m None.
Proof.
  intros Hskip. unfold LoadPolicyLine.
  destruct Hskip as [->|Hc%HasPrefix_comment]; [done|].
  rewrite Hc. by rewrite orb_true_r.
Qed.

Lemma LoadPolicyLine_reads (line : string) (m : Model) :
  line ≠ "" → ¬ isComment line →
  LoadPolicyLine sep csvRead line m
  = match csvRead policyReader line with
    | inr err => Done m (Some err)
    | inl tokens => LoadPolicyArray sep tokens m
    end.
Proof.
  intros Hne Hnc. unfold LoadPolicyLine.
  apply String.eqb_neq in Hne. rewrite Hne.
  destruct (HasPrefix line "#") eqn:Hp; [|done].
  by apply HasPrefix_comment in Hp.
Qed.

Lemma GetAssertion_insert (m : Model) (sec key : string) (ast : Assertion) :
  GetAssertion (<[sec := <[key := ast]> (section m sec)]> m) sec key = Some ast.
Proof.
  unfold GetAssertion, section. rewrite lookup_insert_eq. cbn.
  apply lookup_insert_eq.
Qed.

Lemma has_policy_appendRule (m : Model) (sec key : string) (ast : Assertion)
    (rule : list string) :
  has_policy sep (<[sec := <[key := appendRule sep ast rule]> (section m sec)]> m)
             sec key rule = true.
Proof.
  unfold has_policy. rewrite GetAssertion_insert. cbn [PolicyMap appendRule].
  rewrite lookup_insert_eq. by apply bool_decide_eq_true_2.
Qed.

(** What [LoadPolicyArray] does with a record whose first field
    [String c key'] is not empty and names an assertion, and whose rule is
    not shorter than the tokens of that assertion. *)
Lemma LoadPolicyArray_store (m : Model) (c : ascii) (key' : string)
    (rule : list string) (ast : Assertion) :
  let sec := String c "" in
  let key := String c key' in
  GetAssertion m sec key = Some ast →
  (length (Tokens ast) ≤ length rule)%nat →
  LoadPolicyArray sep (key :: rule) m
  = if has_policy sep m sec key rule then Done m None
    else Done (<[sec := <[key := appendRule sep ast rule]> (section m sec)]> m) None.
Proof.
  cbn zeta. intros Hast Hlen. unfold LoadPolicyArray, slice_to_checked.
  rewrite decide_True by (cbn; lia). cbn [stake].
  unfold HasPolicyEx, AddPolicy, add_policy. rewrite Hast.
  rewrite decide_False by lia.
  destruct (has_policy sep m (String c "") (String c key') rule) eqn:Hhas; [done|].
  unfold has_policy in Hhas. rewrite Hast in Hhas. by rewrite Hhas.
Qed.

(** A record whose first field names no assertion is refused. *)
Lemma LoadPolicyArray_missing (m : Model) (c : ascii) (key' : string)
    (rule : list string) :
  GetAssertion m (String c "") (String c key') = None →
  LoadPolicyArray sep (String c key' :: rule) m = Done m (Some errNoAssertion).
Proof.
  intros Hast. unfold LoadPolicyArray, slice_to_checked.
  rewrite decide_True by (cbn; lia). cbn [stake].
  unfold HasPolicyEx. by rewrite Hast.
Qed.

(** A record whose rule is shorter than the tokens is refused. *)
Lemma LoadPolicyArray_short (m : Model) (c : ascii) (key' : string)
    (rule : list string) (ast : Assertion) :
  GetAssertion m (String c "") (String c key') = Some ast →
  (length rule < length (Tokens ast))%nat →
  LoadPolicyArray sep (String c key' :: rule) m = Done m (Some errInvalidRule).
Proof.
  intros Hast Hlen. unfold LoadPolicyArray, slice_to_checked.
  rewrite decide_True by (cbn; lia). cbn [stake].
  unfold HasPolicyEx. rewrite Hast. by rewrite decide_True.
Qed.

Lemma LoadPolicyArray_idempotent (tokens : list string) (m m1 : Model)
    (err : option error) :
  LoadPolicyArray sep tokens m = Done m1 err →
  LoadPolicyArray sep tokens m1 = Done m1 err.
Proof.
  destruct tokens as [|[|c key'] rule]; [done..|].
  destruct (GetAssertion m (String c "") (String c key')) as [ast|] eqn:Hast.
  - destruct (decide (length rule < length (Tokens ast))%nat) as [Hshort|Hlen].
    { rewrite (LoadPolicyArray_short m c key' rule ast Hast Hshort).
      intros [= <- <-]. by apply (LoadPolicyArray_short m c key' rule ast). }
    rewrite (LoadPolicyArray_store m c key' rule ast Hast) by lia.
    destruct (has_policy sep m _ _ rule) eqn:Hhas.
    + intros [= <- <-].
      rewrite (LoadPolicyArray_store m c key' rule ast Hast) by lia.
      by rewrite Hhas.
    + intros [= <- <-].
      rewrite (LoadPolicyArray_store _ c key' rule (appendRule sep ast rule));
        [|apply GetAssertion_insert|cbn [Tokens appendRule]; lia].
      by rewrite has_policy_appendRule.
  - rewrite (LoadPolicyArray_missing m c key' rule Hast).
    intros [= <- <-]. by apply LoadPolicyArray_missing.
Qed.

(** A rule whose canonical form is in a sound index, and which no other
    stored rule shares its canonical form with, is in the policy. *)
Lemma has_policy_storedUnder (m : Model) (sec key : string) (ast : Assertion)
    (rule : list string) :
  GetAssertion m sec key = Some ast →
  indexSound sep ast → canonicalDistinct sep ast rule →
  has_policy sep m sec key rule = true →
  storedUnder m sec key rule.
Proof.
  intros Hast Hsound Hdistinct Hhas. exists ast. split; [done|].
  unfold has_policy in Hhas. rewrite Hast in Hhas.
  apply bool_decide_eq_true_1 in Hhas as [i Hi].
  destruct (Hsound _ _ Hi) as (stored & Hstored & Hcanonical).
  assert (stored ∈ Policy ast) as Hin by by eapply list_elem_of_lookup_2.
  by rewrite <- (Hdistinct stored Hin Hcanonical).
Qed.

(** C5, as amended: a line that is empty or begins with ['#'] is skipped
    with a nil result and leaves the model as it is.  Any other line that
    the reader splits into a first field [key], not empty, and the fields
    [rule] is looked up under the section given by the first byte of [key]
    and under the key [key]: when there is an assertion whose tokens are not
    more than the fields of [rule], the result is nil and the canonical form
    of [rule] is in the index afterwards; the rule is added at the end of
    the policy of the assertion when its canonical form was not in the
    index, and the model is left as it is when it was; the rule is then in
    the policy whenever the index holds stored rules only and no other
    stored rule has its canonical form.  When there is no such assertion, or
    when the rule is shorter than its tokens, the line is refused with an
    error and the model is left as it is. *)
Theorem LoadPolicyLine_stores_under_first_field (line : string) (m : Model) :
  (line = "" ∨ isComment line → LoadPolicyLine sep csvRead line m = Done m None)
  ∧ (∀ c key' rule ast,
       let sec := String c "" in
       let key := String c key' in
       line ≠ "" → ¬ isComment line →
       csvRead policyReader line = inl (key :: rule) →
       GetAssertion m sec key = Some ast →
       (length (Tokens ast) ≤ length rule)%nat →
       ∃ m',
         LoadPolicyLine sep csvRead line m = Done m' None
         ∧ has_policy sep m' sec key rule = true
         ∧ (has_policy sep m sec key rule = true → m' = m)
         ∧ (has_policy sep m sec key rule = false →
            m' = <[sec := <[key := appendRule sep ast rule]> (section m sec)]> m
            ∧ ∃ ast', GetAssertion m' sec key = Some ast'
                      ∧ Policy ast' = Policy ast ++ [rule])
         ∧ (indexSound sep ast → canonicalDistinct sep ast rule →
            storedUnder m' sec key rule))
  ∧ (∀ c key' rule,
       let sec := String c "" in
       let key := String c key' in
       line ≠ "" → ¬ isComment line →
       csvRead policyReader line = inl (key :: rule) →
       (GetAssertion m sec key = None →
        LoadPolicyLine sep csvRead line m = Done m (Some errNoAssertion))
       ∧ (∀ ast, GetAssertion m sec key = Some ast →
                 (length rule < length (Tokens ast))%nat →
                 LoadPolicyLine sep csvRead line m
                 = Done m (Some errInvalidRule))).
Proof.
  split; [apply LoadPolicyLine_skips|]. split.
  - intros c key' rule ast sec key. subst sec key.
    intros Hne Hnc Hread Hast Hlen.
    rewrite LoadPolicyLine_reads, Hread by done.
    rewrite (LoadPolicyArray_store m c key' rule ast Hast Hlen).
    destruct (has_policy sep m (String c "") (String c key') rule) eqn:Hhas.
    + exists m. repeat split; [done..|].
      intros Hsound Hdistinct.
      by apply (has_policy_storedUnder m _ _ ast).
    + eexists. split; [done|]. split; [apply has_policy_appendRule|].
      split; [done|]. split.
      * intros _. split; [done|].
        exists (appendRule sep ast rule). split; [apply GetAssertion_insert|done].
      * intros _ _. exists (appendRule sep ast rule).
        split; [apply GetAssertion_insert|].
        cbn [Policy appendRule]. apply elem_of_app. right. apply list_elem_of_here.
  - intros c key' rule sec key. subst sec key. intros Hne Hnc Hread.
    rewrite LoadPolicyLine_reads, Hread by done. split.
    + apply LoadPolicyArray_missing.
    + apply LoadPolicyArray_short.
Qed.

Lemma add_policy_present (m : Model) (sec key : string) (rule : list string) :
  has_policy sep m sec key rule = true →
  add_policy sep m sec key rule = (m, (false, None)).
Proof.
  unfold has_policy, add_policy.
  destruct (GetAssertion m sec key) as [ast|]; [|done]. by intros ->.
Qed.

Lemma indexed_has_policy (m : Model) (sec key : string) (ast : Assertion)
    (rule : list string) :
  GetAssertion m sec key = Some ast → indexed sep ast → rule ∈ Policy ast →
  has_policy sep m sec key rule = true.
Proof.
  intros Hast Hidx [i Hi]%list_elem_of_lookup.
  unfold has_policy. rewrite Hast. apply bool_decide_eq_true_2.
  exists i. by apply Hidx.
Qed.

Lemma LoadPolicyLine_idempotent (line : string) (m m1 : Model)
    (err : option error) :
  LoadPolicyLine sep csvRead line m = Done m1 err →
  LoadPolicyLine sep csvRead line m1 = Done m1 err.
Proof.
  unfold LoadPolicyLine.
  destruct (String.eqb line "" || HasPrefix line "#"); [by intros [= <- <-]|].
  destruct (csvRead _ line) as [tokens|e]; [|by intros [= <- <-]].
  apply LoadPolicyArray_idempotent.
Qed.

(** C6: adding a rule that is present in the assertion (its canonical
    form is in the index, as it is for every rule of the policy of an
    indexed assertion) changes nothing and reports [(false, nil)]; and
    loading a line again, in the model that loading it has produced, leaves
    that model as it is and returns the same result. *)
Theorem duplicate_policy_is_skipped (m : Model) (sec key : string)
    (rule : list string) (line : string) :
  (has_policy sep m sec key rule = true →
   add_policy sep m sec key rule = (m, (false, None)))
  ∧ (∀ ast, GetAssertion m sec key = Some ast → indexed sep ast →
            rule ∈ Policy ast →
            add_policy sep m sec key rule = (m, (false, None)))
  ∧ (∀ m1 err, LoadPolicyLine sep csvRead line m = Done m1 err →
               LoadPolicyLine sep csvRead line m1 = Done m1 err).
Proof.
  split; [apply add_policy_present|]. split.
  - intros ast Hast Hidx Hin. apply add_policy_present.
    by apply (indexed_has_policy m sec key ast).
  - apply LoadPolicyLine_idempotent.
Qed.

End LoadPolicyFacts.

Section LoadPolicyExamples.
Import Go GoStr Model PolicyStore Persist.

Example readPlainRecord_policy_line :
  readPlainRecord policyReader "p, alice, data1, read" = inl ("p" :: aliceRule).
Proof. reflexivity. Qed.

Example LoadPolicyLine_empty_first_field_panics :
  LoadPolicyLine "," readPlainRecord ", alice, data1, read" emptyModel
  = Crash PanicSliceBounds.
Proof. reflexivity. Qed.

Example LoadPolicyLine_unknown_key_is_refused :
  LoadPolicyLine "," readPlainRecord "q, bob, data2, write" emptyModel
  = Done emptyModel (Some errNoAssertion).
Proof. reflexivity. Qed.

Example LoadPolicyLine_short_rule_is_refused :
  LoadPolicyLine "," readPlainRecord "p, alice" emptyModel
  = Done emptyModel (Some errInvalidRule).
Proof. reflexivity. Qed.

(** A rule is skipped when a stored rule of other fields has its
    canonical form. *)
Example LoadPolicyLine_canonical_form_shared :
  let m : Model :=
    {[ "g" := {[ "g" := gAssertion "_, _" ["_"; " _"] [] [["alice"; "admin,extra"]] ]} ]} in
  LoadPolicyLine "," readPlainRecord "g, alice, admin, extra" m = Done m None
  ∧ ¬ storedUnder m "g" "g" ["alice"; "admin"; "extra"].
Proof.
  cbn zeta. split; [reflexivity|].
  intros (ast & Hast & Hin). vm_compute in Hast. injection Hast as <-.
  cbn in Hin. apply list_elem_of_singleton in Hin. discriminate Hin.
Qed.

(** C5, as stated, fails on a line whose first field is empty: slicing
    the empty key panics. *)
Lemma LoadPolicyLine_empty_first_field_is_not_stored :
  ¬ LoadPolicyLine_stores_every_record "," readPlainRecord
      ", alice, data1, read" emptyModel.
Proof.
  intros Hclaim.
  destruct (Hclaim ltac:(discriminate)
                   ltac:(intros [rest Hrest]; discriminate Hrest)
                   "" aliceRule eq_refl) as (m' & Hload & _).
  vm_compute in Hload. discriminate Hload.
Qed.

Lemma LoadPolicyLine_stores_under_first_field_witness :
  LoadPolicyLine "," readPlainRecord "# p, alice, data1, read" emptyModel
  = Done emptyModel None
  ∧ (∃ m', LoadPolicyLine "," readPlainRecord "p, alice, data1, read" emptyModel
           = Done m' None
           ∧ has_policy "," m' "p" "p" aliceRule = true
           ∧ m' = aliceModel
           ∧ storedUnder m' "p" "p" aliceRule)
  ∧ (∃ m', LoadPolicyLine "," readPlainRecord "p, alice, data1, read" aliceModel
           = Done m' None
           ∧ m' = aliceModel)
  ∧ LoadPolicyLine "," readPlainRecord "q, bob, data2, write" emptyModel
    = Done emptyModel (Some errNoAssertion)
  ∧ LoadPolicyLine "," readPlainRecord "p, alice" emptyModel
    = Done emptyModel (Some errInvalidRule).
Proof.
  split; [|split; [|split; [|split]]].
  - apply (proj1 (LoadPolicyLine_stores_under_first_field
                    "," readPlainRecord "# p, alice, data1, read" emptyModel)).
    right. by eexists.
  - destruct (proj1 (proj2 (LoadPolicyLine_stores_under_first_field
                       "," readPlainRecord "p, alice, data1, read" emptyModel))
                    "p"%char "" aliceRule emptyP)
      as (m' & Hload & Hhas & _ & Happend & Hstored).
    + discriminate.
    + intros [rest Hrest]. discriminate Hrest.
    + reflexivity.
    + reflexivity.
    + cbn. lia.
    + exists m'. split; [exact Hload|]. split; [exact Hhas|]. split.
      * destruct Happend as [-> _]; reflexivity.
      * apply Hstored.
        -- intros text i Hi. discriminate Hi.
        -- intros stored Hin. cbn in Hin. by apply elem_of_nil in Hin.
  - destruct (proj1 (proj2 (LoadPolicyLine_stores_under_first_field
                       "," readPlainRecord "p, alice, data1, read" aliceModel))
                    "p"%char "" aliceRule (appendRule "," emptyP aliceRule))
      as (m' & Hload & _ & Hsame & _).
    + discriminate.
    + intros [rest Hrest]. discriminate Hrest.
    + reflexivity.
    + reflexivity.
    + cbn. lia.
    + exists m'. split; [exact Hload|]. apply Hsame. reflexivity.
  - destruct (proj2 (proj2 (LoadPolicyLine_stores_under_first_field
                       "," readPlainRecord "q, bob, data2, write" emptyModel))
                    "q"%char "" ["bob"; "data2"; "write"])
      as [Hmissing _].
    + discriminate.
    + intros [rest Hrest]. discriminate Hrest.
    + reflexivity.
    + apply Hmissing. reflexivity.
  - destruct (proj2 (proj2 (LoadPolicyLine_stores_under_first_field
                       "," readPlainRecord "p, alice" emptyModel))
                    "p"%char "" ["alice"])
      as [_ Hshort].
    + discriminate.
    + intros [rest Hrest]. discriminate Hrest.
    + reflexivity.
    + apply (Hshort emptyP); [reflexivity|cbn; lia].
Defined.

Lemma duplicate_policy_is_skipped_witness :
  add_policy "," aliceModel "p" "p" aliceRule = (aliceModel, (false, None))
  ∧ (add_policy "," aliceModel "p" "p" aliceRule).2 = (false, None)
  ∧ LoadPolicyLine "," readPlainRecord "p, alice, data1, read" aliceModel
    = Done aliceModel None.
Proof.
  destruct (duplicate_policy_is_skipped "," readPlainRecord aliceModel "p" "p"
              aliceRule "p, alice, data1, read") as (Hhas & Hadd & _).
  destruct (duplicate_policy_is_skipped "," readPlainRecord emptyModel "p" "p"
              aliceRule "p, alice, data1, read") as (_ & _ & Hload).
  split; [|split].
  - apply Hhas. reflexivity.
  - rewrite (Hadd (appendRule "," emptyP aliceRule)); [reflexivity..| |].
    + intros [|i] rule Hrule.
      * injection Hrule as <-. reflexivity.
      * discriminate Hrule.
    + apply list_elem_of_here.
  - apply Hload. reflexivity.
Defined.

End LoadPolicyExamples.

(** *** The wrappers of the expression functions *)
Section WrapperFacts.
Import Go GoStr GoTime Util.

Lemma forallb_isString (args : list iface) :
  forallb isString args = true ↔ ∀ a, a ∈ args → ∃ s, a = IString s.
Proof.
  induction args as [|a args IH]; cbn.
  - split; [|done]. intros _ a Ha. by apply elem_of_nil in Ha.
  - rewrite andb_true_iff, IH. split.
    + intros [Ha Hall] b [->|Hb]%elem_of_cons; [|by apply Hall].
      destruct a; try done. by eexists.
    + intros Hall. split.
      * destruct (Hall a) as [s ->]; [apply list_elem_of_here|done].
      * intros b Hb. apply Hall. by apply list_elem_of_further.
Qed.

(** X1: [validateVariadicArgs] accepts exactly the argument lists of the
    expected length whose elements are all strings. *)
Theorem validateVariadicArgs_accepts (expectedLen : Z) (args : list iface) :
  validateVariadicArgs expectedLen args = None
  ↔ Z.of_nat (length args) = expectedLen ∧ ∀ a, a ∈ args → ∃ s, a = IString s.
Proof.
  unfold validateVariadicArgs.
  destruct (Z.eqb_spec (Z.of_nat (length args)) expectedLen) as [Hlen|Hlen];
    cbn [negb].
  - destruct (forallb isString args) eqn:Hall.
    + split; [|done]. intros _. split; [done|]. by apply forallb_isString.
    + split; [done|]. intros [_ Hstr%forallb_isString]. congruence.
  - split; [done|]. by intros [? _].
Qed.

Lemma two_strings (args : list iface) :
  validateVariadicArgs 2 args = None →
  ∃ name1 name2, args = [IString name1; IString name2].
Proof.
  intros [Hlen Hstr]%validateVariadicArgs_accepts.
  destruct args as [|a0 [|a1 [|a2 args]]]; cbn in Hlen; try lia.
  destruct (Hstr a0) as [name1 ->]; [apply list_elem_of_here|].
  destruct (Hstr a1) as [name2 ->];
    [apply list_elem_of_further, list_elem_of_here|].
  by exists name1, name2.
Qed.

(** X2: [KeyMatchFunc] and [KeyGetFunc] never panic: on exactly two
    strings they return the result of [KeyMatch] and of [KeyGet] with a nil
    error, and on every other argument list they return [false] with an
    error. *)
Theorem KeyMatchFunc_KeyGetFunc_total (args : list iface) :
  (∀ name1 name2, args = [IString name1; IString name2] →
     KeyMatchFunc args = Returns (IBool (KeyMatch name1 name2), None)
     ∧ KeyGetFunc args = Returns (IString (KeyGet name1 name2), None))
  ∧ ((¬ ∃ name1 name2, args = [IString name1; IString name2]) →
     ∃ err, validateVariadicArgs 2 args = Some err
            ∧ KeyMatchFunc args
              = Returns (IBool false, Some (wrapError "keyMatch" err))
            ∧ KeyGetFunc args
              = Returns (IBool false, Some (wrapError "keyGet" err))).
Proof.
  split.
  - intros name1 name2 ->. done.
  - intros Hnot. unfold KeyMatchFunc, KeyGetFunc.
    destruct (validateVariadicArgs 2 args) as [err|] eqn:Hval; [by exists err|].
    exfalso. apply Hnot. by apply two_strings.
Qed.

Lemma KeyMatchFunc_KeyGetFunc_total_witness :
  KeyMatchFunc [IString "/foo/bar"; IString "/foo/*"] = Returns (IBool true, None)
  ∧ KeyGetFunc [IString "/foo/bar"; IString "/foo/*"]
    = Returns (IString "bar", None)
  ∧ ∃ err, KeyMatchFunc [IString "/foo/bar"; INumber 1]
           = Returns (IBool false, Some (wrapError "keyMatch" err)).
Proof.
  destruct (KeyMatchFunc_KeyGetFunc_total [IString "/foo/bar"; IString "/foo/*"])
    as [Hok _].
  destruct (KeyMatchFunc_KeyGetFunc_total [IString "/foo/bar"; INumber 1])
    as [_ Hbad].
  destruct (Hok "/foo/bar" "/foo/*" eq_refl) as [Hmatch Hget].
  split; [exact Hmatch|]. split; [exact Hget|].
  destruct Hbad as (err & _ & Herr & _).
  - intros (name1 & name2 & Heq). discriminate Heq.
  - by exists err.
Defined.

(** X3: [TimeMatchFunc] returns what [TimeMatch] returns on exactly two
    arguments, and otherwise [false] with the error of the argument count;
    it never panics. *)
Theorem TimeMatchFunc_two_arguments (now : Time)
    (Parse : string → string → Time + error) (args : list string) :
  (∀ startTime endTime, args = [startTime; endTime] →
     TimeMatchFunc now Parse args = Returns (TimeMatch now Parse startTime endTime))
  ∧ (length args ≠ 2%nat →
     TimeMatchFunc now Parse args
     = Returns (false, Some (wrapError "TimeMatch" (errArgCount 2 (length args))))).
Proof.
  split.
  - by intros startTime endTime ->.
  - intros Hlen. unfold TimeMatchFunc, validateVariadicStringArgs.
    destruct (Z.eqb_spec (Z.of_nat (length args)) 2) as [?|_]; [lia|done].
Qed.

Lemma TimeMatchFunc_two_arguments_witness :
  TimeMatchFunc newYear2024 ParseCanonical ["_"; "_"] = Returns (true, None)
  ∧ TimeMatchFunc newYear2024 ParseCanonical ["_"]
    = Returns (false, Some "TimeMatch: expected 2 arguments, but got 1").
Proof.
  destruct (TimeMatchFunc_two_arguments newYear2024 ParseCanonical ["_"; "_"])
    as [Hok _].
  destruct (TimeMatchFunc_two_arguments newYear2024 ParseCanonical ["_"])
    as [_ Hbad].
  split.
  - rewrite (Hok "_" "_" eq_refl). reflexivity.
  - rewrite Hbad; [reflexivity|]. cbn. lia.
Defined.

End WrapperFacts.

(** *** More on KeyMatch and KeyGet *)
Section KeyMatchMoreFacts.
Import GoStr Util.

Lemma occurs_split (c : ascii) (s : string) :
  occurs c s → ∃ p t, s = p +:+ String c t ∧ ¬ occurs c p.
Proof.
  induction s as [|d s IH]; [done|]. intros Hocc.
  destruct (Ascii.eqb_spec d c) as [->|Hne].
  - exists "", s. split; [done|]. by intros [].
  - destruct Hocc as [?|Hocc]; [done|].
    destruct (IH Hocc) as (p & t & -> & Hp).
    exists (String d p), t. split; [done|]. intros [?|?]; [done|by apply Hp].
Qed.

Lemma sdrop_app_len (p t : string) : sdrop (len p) (p +:+ t) = t.
Proof.
  induction p as [|c p IH]; [done|]. rewrite str_app_cons. cbn. by rewrite IH.
Qed.

(** X4: every key matches itself as a pattern, with or without ['*']. *)
Theorem KeyMatch_reflexive (a : string) : KeyMatch a a = true.
Proof.
  destruct (decide (Index a "*" = -1)) as [Hi|Hi].
  - unfold KeyMatch. rewrite Hi. cbn. apply String.eqb_refl.
  - unfold Index in Hi.
    destruct (index_from_found "*" a 0 Hi) as (p & t & -> & Hp & _); [lia|].
    apply KeyMatch_star_prefix; [done|]. by eexists.
Qed.

(** X5: what follows the first ['*'] of the pattern is never compared:
    two patterns with the same ['*']-free part before their first ['*']
    match the same keys. *)
Theorem KeyMatch_ignores_after_first_star (a p t t' : string) :
  ¬ occurs "*" p →
  KeyMatch a (p +:+ String "*" t) = KeyMatch a (p +:+ String "*" t').
Proof.
  intros Hp.
  pose proof (KeyMatch_star_prefix a p t Hp) as Ht.
  pose proof (KeyMatch_star_prefix a p t' Hp) as Ht'.
  destruct (KeyMatch a (p +:+ String "*" t)), (KeyMatch a (p +:+ String "*" t'));
    try done.
  - symmetry. apply Ht'. by apply Ht.
  - apply Ht. by apply Ht'.
Qed.

Lemma KeyMatch_ignores_after_first_star_witness :
  KeyMatch "/foo/x" "/foo/*/bar" = KeyMatch "/foo/x" "/foo/*".
Proof.
  apply (KeyMatch_ignores_after_first_star "/foo/x" "/foo/" "/bar" "").
  cbn. intuition discriminate.
Defined.

(** X6: for a pattern with a ['*'], a key matches exactly when it is the
    part of the pattern before the first ['*'] followed by what [KeyGet]
    returns; [KeyGet] is empty for a key that is that part itself. *)
Theorem KeyMatch_KeyGet_decompose (a b : string) :
  occurs "*" b →
  (KeyMatch a b = true ↔ a = before_first "*" b +:+ KeyGet a b)
  ∧ KeyGet (before_first "*" b) b = "".
Proof.
  intros (p & t & -> & Hp)%occurs_split.
  rewrite before_first_split by done. split.
  - rewrite KeyMatch_star_prefix by done. split; [|by eexists].
    intros [u ->]. unfold KeyGet, Index, slice_to, slice_from.
    rewrite index_from_first by done. rewrite Z.add_0_l, Nat2Z.id.
    destruct (Z.eqb_spec (Z.of_nat (len p)) (-1)) as [?|_]; [lia|].
    rewrite !stake_app_len, String.eqb_refl, andb_true_r, Z.gtb_ltb.
    destruct (Z.ltb_spec (Z.of_nat (len p)) (Z.of_nat (len (p +:+ u))))
      as [Hlt|Hge].
    + by rewrite sdrop_app_len.
    + rewrite str_len_app in Hge. destruct u; [done|cbn in Hge; lia].
  - unfold KeyGet, Index. rewrite index_from_first by done.
    rewrite Z.add_0_l.
    destruct (Z.eqb_spec (Z.of_nat (len p)) (-1)) as [?|_]; [lia|].
    rewrite Z.gtb_ltb. by destruct (Z.ltb_spec (Z.of_nat (len p)) (Z.of_nat (len p)));
      [lia|].
Qed.

Lemma KeyMatch_KeyGet_decompose_witness :
  (KeyMatch "/foo/bar" "/foo/*" = true
   ↔ "/foo/bar" = before_first "*" "/foo/*" +:+ KeyGet "/foo/bar" "/foo/*")
  ∧ KeyGet (before_first "*" "/foo/*") "/foo/*" = "".
Proof.
  apply (KeyMatch_KeyGet_decompose "/foo/bar" "/foo/*").
  do 5 right. by left.
Defined.

End KeyMatchMoreFacts.

(** *** KeyMatch4: repeated tokens *)
Section KeyMatch4Facts.
Import Go GoStr Util.

Lemma keyMatch4Loop_agree (matches pre tokens : list string)
    (values : gmap string string) :
  length (pre ++ tokens) = length matches →
  (∀ i token, pre !! i = Some token → values !! token = matches !! i) →
  (∀ token value, values !! token = Some value →
     ∃ i, pre !! i = Some token ∧ matches !! i = Some value) →
  ∃ b, keyMatch4Loop matches (length pre) tokens values = Returns b
       ∧ (b = true ↔ tokensAgree (pre ++ tokens) matches).
Proof.
  revert pre values.
  induction tokens as [|token tokens IH]; intros pre values Hlen Hseen Hdom.
  - exists true. split; [done|]. split; [|done]. intros _ i j token Hi Hj.
    rewrite app_nil_r in Hi, Hj.
    by rewrite <- (Hseen i token Hi), <- (Hseen j token Hj).
  - cbn [keyMatch4Loop].
    assert (is_Some (matches !! length pre)) as [value Hvalue].
    { apply lookup_lt_is_Some. rewrite <- Hlen, length_app. cbn. lia. }
    rewrite Hvalue.
    assert (pre ++ token :: tokens = (pre ++ [token]) ++ tokens) as Happ
      by by rewrite <- app_assoc.
    assert (length (pre ++ [token]) = S (length pre)) as Hpre
      by (rewrite length_app; cbn; lia).
    destruct (values !! token) as [old|] eqn:Hold.
    + rewrite Hold. change (default "" (Some old)) with old.
      destruct (String.eqb_spec old value) as [->|Hne]; cbn [negb].
      * rewrite Happ, <- Hpre. apply IH.
        -- by rewrite <- Happ.
        -- intros i tok Hi.
           destruct (decide (i < length pre)%nat) as [Hlt|Hge].
           ++ rewrite lookup_app_l in Hi by done. by apply Hseen.
           ++ apply lookup_lt_Some in Hi as Hbound. rewrite Hpre in Hbound.
              assert (i = length pre) as -> by lia.
              rewrite list_lookup_middle in Hi by done.
              injection Hi as <-. by rewrite Hold, Hvalue.
        -- intros tok v Hv. destruct (Hdom tok v Hv) as (i & Hi & Hm).
           exists i. split; [|done]. rewrite lookup_app_l; [done|].
           by apply lookup_lt_Some in Hi.
      * exists false. split; [done|]. split; [done|]. intros Hagree.
        destruct (Hdom token old Hold) as (i & Hi & Hm).
        assert (matches !! i = matches !! length pre) as Heq.
        { apply (Hagree i (length pre) token).
          - rewrite lookup_app_l; [done|]. by apply lookup_lt_Some in Hi.
          - by apply list_lookup_middle. }
        rewrite Hm, Hvalue in Heq. by injection Heq.
    + rewrite lookup_insert_eq. change (default "" (Some value)) with value.
      rewrite String.eqb_refl.
      cbn [negb]. rewrite Happ, <- Hpre. apply IH.
      * by rewrite <- Happ.
      * intros i tok Hi.
        destruct (decide (i < length pre)%nat) as [Hlt|Hge].
        -- rewrite lookup_app_l in Hi by done.
           assert (tok ≠ token) as Hne.
           { intros ->. pose proof (Hseen i token Hi) as Hs.
             rewrite Hold in Hs.
             destruct (lookup_lt_is_Some_2 matches i) as [m Hm];
               [rewrite <- Hlen, length_app; lia|]. by rewrite Hm in Hs. }
           rewrite lookup_insert_ne by done. by apply Hseen.
        -- apply lookup_lt_Some in Hi as Hbound. rewrite Hpre in Hbound.
           assert (i = length pre) as -> by lia.
           rewrite list_lookup_middle in Hi by done.
           injection Hi as <-. by rewrite lookup_insert_eq, Hvalue.
      * intros tok v Hv. destruct (decide (tok = token)) as [->|Hne].
        -- rewrite lookup_insert_eq in Hv. injection Hv as <-.
           exists (length pre). split; [by apply list_lookup_middle|done].
        -- rewrite lookup_insert_ne in Hv by done.
           destruct (Hdom tok v Hv) as (i & Hi & Hm).
           exists i. split; [|done]. rewrite lookup_app_l; [done|].
           by apply lookup_lt_Some in Hi.
Qed.

(** X7: when the expression built from the pattern matches the key with
    as many groups as the pattern has tokens, [KeyMatch4] returns true
    exactly when every two occurrences of one token stand for the same
    text of the key; when the expression does not match, it returns
    false. *)
Theorem KeyMatch4_repeated_tokens `{RegexpSubmatch} (key1 key2 : string)
    (tokens groups : list string) (whole : string) :
  let pattern := ReplaceAll key2 "/*" "/.*" in
  let expr := "^" +:+ regexp_ReplaceAllStringFunc keyMatch4Re pattern
                        (λ _, "([^/]+)") +:+ "$" in
  mapM stripBraces (regexp_FindAllString keyMatch4Re pattern) = Some tokens →
  (regexp_FindStringSubmatch expr key1 = Returns None →
   KeyMatch4 key1 key2 = Returns false)
  ∧ (regexp_FindStringSubmatch expr key1 = Returns (Some (whole :: groups)) →
     length tokens = length groups →
     ∃ b, KeyMatch4 key1 key2 = Returns b
          ∧ (b = true ↔ tokensAgree tokens groups)).
Proof.
  cbn zeta. intros Htokens. unfold KeyMatch4. cbn zeta. rewrite Htokens. split.
  - by intros ->.
  - intros -> Hlen. rewrite (proj2 (Nat.eqb_eq _ _) Hlen). cbn [negb].
    apply (keyMatch4Loop_agree groups [] tokens ∅); [done|done|].
    intros token value Hv. by rewrite lookup_empty in Hv.
Qed.

Lemma KeyMatch4_repeated_tokens_witness :
  KeyMatch4 (H := exampleEngine None) "/pen/1" "/parent/{id}/child/{id}"
  = Returns false
  ∧ KeyMatch4 (H := exampleEngine (Some ("123", "123")))
      "/parent/123/child/123" "/parent/{id}/child/{id}" = Returns true
  ∧ KeyMatch4 (H := exampleEngine (Some ("123", "456")))
      "/parent/123/child/456" "/parent/{id}/child/{id}" = Returns false.
Proof.
  split; [|split].
  - apply (KeyMatch4_repeated_tokens (H := exampleEngine None)
             "/pen/1" "/parent/{id}/child/{id}" ["id"; "id"] [] "");
      reflexivity.
  - destruct (proj2 (KeyMatch4_repeated_tokens
                       (H := exampleEngine (Some ("123", "123")))
                       "/parent/123/child/123" "/parent/{id}/child/{id}"
                       ["id"; "id"] ["123"; "123"] "/parent/123/child/123"
                       eq_refl) eq_refl eq_refl) as (b & -> & Hb).
    f_equal. apply Hb. intros [|[|i]] [|[|j]] token Hi Hj; done.
  - destruct (proj2 (KeyMatch4_repeated_tokens
                       (H := exampleEngine (Some ("123", "456")))
                       "/parent/123/child/456" "/parent/{id}/child/{id}"
                       ["id"; "id"] ["123"; "456"] "/parent/123/child/456"
                       eq_refl) eq_refl eq_refl) as (b & -> & Hb).
    f_equal. destruct b; [|done]. exfalso.
    assert (tokensAgree ["id"; "id"] ["123"; "456"]) as Hagree by by apply Hb.
    discriminate (Hagree 0%nat 1%nat "id" eq_refl eq_refl).
Defined.

End KeyMatch4Facts.

(** *** Role links: the incremental builders *)
Section IncrementalFacts.
Import Go Rbac Model.
Context {RM : Type} `{!ConditionalRoleManager RM}.

Lemma incremental_add_loop (count : nat) (rm : RM) (rules : list (list string)) :
  incrementalRoleLinksLoop count PolicyAdd rm rules = roleLinksLoop count rm rules.
Proof.
  revert rm; induction rules as [|rule rules IH]; intros rm; [done|].
  cbn [incrementalRoleLinksLoop roleLinksLoop]. case_decide; [done|].
  destruct (truncate count rule) as [|rule0 [|rule1 domain]]; try done.
  destruct (AddLink rm rule0 rule1 domain) as [rm' [err|]]; [done|apply IH].
Qed.

Lemma incremental_conditional_add_loop (ast : Assertion) (count : nat) (crm : RM)
    (rules : list (list string)) :
  incrementalConditionalRoleLinksLoop ast count PolicyAdd crm rules
  = conditionalRoleLinksLoop ast count crm rules.
Proof.
  revert crm; induction rules as [|rule rules IH]; intros crm; [done|].
  cbn [incrementalConditionalRoleLinksLoop conditionalRoleLinksLoop].
  case_decide; [done|]. cbn zeta.
  destruct (reslice _ _ _) as [domainRule| |]; try done.
  destruct (addConditionalRoleLink _ _ _ _) as [crm' [err|]| |];
    first [done|apply IH].
Qed.

(** X8: adding all the rules of the assertion incrementally is building
    its links: [buildIncrementalRoleLinks] with [PolicyAdd] over [ast.Policy]
    does what [buildRoleLinks] does, and the conditional builders agree in
    the same way. *)
Theorem incremental_add_is_build (ast : Assertion) (rm : RM) :
  buildIncrementalRoleLinks ast rm PolicyAdd (Policy ast) = buildRoleLinks ast rm
  ∧ buildIncrementalConditionalRoleLinks ast rm PolicyAdd (Policy ast)
    = buildConditionalRoleLinks ast rm.
Proof.
  unfold buildIncrementalRoleLinks, buildRoleLinks,
    buildIncrementalConditionalRoleLinks, buildConditionalRoleLinks.
  cbn zeta. case_decide; [done|]. split.
  - apply incremental_add_loop.
  - apply incremental_conditional_add_loop.
Qed.

Lemma incrementalRoleLinksLoop_app (count : nat) (op : PolicyOp) (rm : RM)
    (rules1 rules2 : list (list string)) :
  incrementalRoleLinksLoop count op rm (rules1 ++ rules2)
  = andThen (incrementalRoleLinksLoop count op rm rules1)
            (λ rm', incrementalRoleLinksLoop count op rm' rules2).
Proof.
  revert rm; induction rules1 as [|rule rules1 IH]; intros rm.
  { cbn. by destruct (incrementalRoleLinksLoop _ _ _ _). }
  rewrite <- app_comm_cons. cbn [incrementalRoleLinksLoop].
  case_decide; [done|].
  destruct op; [| |apply IH];
    destruct (truncate count rule) as [|rule0 [|rule1 domain]]; try done.
  - destruct (AddLink rm rule0 rule1 domain) as [rm' [err|]]; [done|apply IH].
  - destruct (DeleteLink rm rule0 rule1 domain) as [rm' [err|]]; [done|apply IH].
Qed.

Lemma incrementalConditionalRoleLinksLoop_app (ast : Assertion) (count : nat)
    (op : PolicyOp) (crm : RM) (rules1 rules2 : list (list string)) :
  incrementalConditionalRoleLinksLoop ast count op crm (rules1 ++ rules2)
  = andThen (incrementalConditionalRoleLinksLoop ast count op crm rules1)
            (λ crm', incrementalConditionalRoleLinksLoop ast count op crm' rules2).
Proof.
  revert crm; induction rules1 as [|rule rules1 IH]; intros crm.
  { cbn. by destruct (incrementalConditionalRoleLinksLoop _ _ _ _ _). }
  rewrite <- app_comm_cons. cbn [incrementalConditionalRoleLinksLoop].
  case_decide; [done|]. cbn zeta.
  destruct (reslice _ _ _) as [domainRule| |]; try done.
  destruct op; [| |apply IH].
  - destruct (addConditionalRoleLink _ _ _ _) as [crm' [err|]| |];
      first [done|apply IH].
  - destruct (elems (truncateSlice count rule)) as [|rule0 [|rule1 domain]];
      try done.
    destruct (DeleteLink crm rule0 rule1 domain) as [crm' [err|]]; [done|apply IH].
Qed.

(** X9: an incremental build over [rules1 ++ rules2] is the build over
    [rules1] followed, when that returns nil, by the build over [rules2] on
    the manager reached; an error or a panic in [rules1] is the result and
    nothing of [rules2] reaches the manager.  The same holds for the
    conditional builder. *)
Theorem incremental_build_splits (ast : Assertion) (rm : RM) (op : PolicyOp)
    (rules1 rules2 : list (list string)) :
  buildIncrementalRoleLinks ast rm op (rules1 ++ rules2)
  = andThen (buildIncrementalRoleLinks ast rm op rules1)
            (λ rm', buildIncrementalRoleLinks ast rm' op rules2)
  ∧ buildIncrementalConditionalRoleLinks ast rm op (rules1 ++ rules2)
    = andThen (buildIncrementalConditionalRoleLinks ast rm op rules1)
              (λ rm', buildIncrementalConditionalRoleLinks ast rm' op rules2).
Proof.
  unfold buildIncrementalRoleLinks, buildIncrementalConditionalRoleLinks.
  cbn zeta. case_decide; [done|]. split.
  - rewrite incrementalRoleLinksLoop_app.
    destruct (incrementalRoleLinksLoop _ _ _ rules1) as [rm' [err|]| |]; done.
  - rewrite incrementalConditionalRoleLinksLoop_app.
    destruct (incrementalConditionalRoleLinksLoop _ _ _ _ rules1)
      as [rm' [err|]| |]; done.
Qed.

Lemma conditional_add_returns (ast : Assertion) (count : nat) (crm : RM)
    (rule : list string) :
  (2 ≤ length (Tokens ast) ≤ count)%nat → (count ≤ length rule)%nat →
  ∃ domainRule,
    reslice (truncateSlice count rule) 2 (length (Tokens ast)) = SliceOk domainRule
    ∧ (∃ crm' err, addConditionalRoleLink ast crm (truncateSlice count rule)
                     (elems domainRule) = Done crm' err)
    ∧ ∃ rule0 rule1 domain,
        elems (truncateSlice count rule) = rule0 :: rule1 :: domain.
Proof.
  intros [Htok Hcount] Hlen.
  assert (elems (truncateSlice count rule) = take count rule
          ∧ elems (truncateSlice count rule) ++ spare (truncateSlice count rule)
            = rule) as [Helems Hbacking].
  { unfold truncateSlice. case_decide; cbn.
    - split; [done|apply take_drop].
    - split; [symmetry; apply take_ge; lia|apply app_nil_r]. }
  unfold reslice. rewrite Hbacking.
  rewrite decide_False by lia. rewrite decide_True by lia.
  eexists. split; [done|].
  assert (∃ rule0 rule1 domain, take count rule = rule0 :: rule1 :: domain)
    as (rule0 & rule1 & domain & Htake).
  { destruct rule as [|rule0 [|rule1 rest]]; cbn in Hlen; [lia..|].
    destruct count as [|[|count]]; [lia..|]. cbn. eauto. }
  split; [|rewrite Helems, Htake; eauto].
  unfold addConditionalRoleLink, resliceFrom. rewrite Helems, Htake.
  rewrite <- Htake.
  rewrite (decide_True (P := (length (Tokens ast) ≤ length (take count rule))%nat))
    by (rewrite length_take; lia).
  cbn [elems].
  destruct (take (length (Tokens ast) - 2) (drop 2 rule)) as [|domain0 ?].
  - destruct (AddLink crm rule0 rule1 []) as [crm' [err|]]; eauto.
  - destruct (AddLink crm rule0 rule1 [domain0]) as [crm' [err|]]; eauto.
Qed.

Lemma conditional_loops_return (ast : Assertion) (count : nat) (op : PolicyOp)
    (crm : RM) (rules : list (list string)) :
  (2 ≤ length (Tokens ast) ≤ count)%nat →
  (∃ crm' err,
     incrementalConditionalRoleLinksLoop ast count op crm rules = Done crm' err
     ∧ ((∃ rule, rule ∈ rules ∧ (length rule < count)%nat) → err ≠ None)).
Proof.
  intros Htok. revert crm; induction rules as [|rule rules IH]; intros crm.
  { exists crm, None. split; [done|]. intros (rule & Hin & _).
    by apply elem_of_nil in Hin. }
  cbn [incrementalConditionalRoleLinksLoop].
  destruct (decide (length rule < count)%nat) as [Hlt|Hge].
  { exists crm, (Some errRuleTooShort). by split. }
  cbn zeta.
  destruct (conditional_add_returns ast count crm rule Htok)
    as (domainRule & -> & (crm1 & err1 & Hadd) & rule0 & rule1 & domain & Helems);
    [lia|].
  assert (∀ crm',
    ∃ crm'' err,
      incrementalConditionalRoleLinksLoop ast count op crm' rules = Done crm'' err
      ∧ ((∃ rule', rule' ∈ rule :: rules ∧ (length rule' < count)%nat) →
         err ≠ None)) as Hrest.
  { intros crm'. destruct (IH crm') as (crm'' & err & Hloop & Herr).
    exists crm'', err. split; [done|]. intros (short & Hin & Hshort).
    apply Herr. exists short. split; [|done].
    apply elem_of_cons in Hin as [->|Hin]; [lia|done]. }
  destruct op.
  - rewrite Hadd. destruct err1 as [err1|]; [|apply Hrest].
    exists crm1, (Some err1). by split.
  - rewrite Helems.
    destruct (DeleteLink crm rule0 rule1 domain) as [crm' [err|]]; [|apply Hrest].
    exists crm', (Some err). by split.
  - apply Hrest.
Qed.

(** X10: the conditional builders check the arity as the plain ones do:
    with fewer than two ['_'] in the value they return the error of the
    role definition and leave the manager as it is; and for an assertion
    with [2 <= len(Tokens) <= count] they always return (no panic), with an
    error when a rule has fewer than [count] fields. *)
Theorem conditional_builders_check_arity (ast : Assertion) (crm : RM)
    (op : PolicyOp) (rules : list (list string)) :
  let count := GoStr.Count (Value ast) "_" in
  ((count < 2)%nat →
   buildConditionalRoleLinks ast crm = Done crm (Some errRoleDefinitionCount)
   ∧ buildIncrementalConditionalRoleLinks ast crm op rules
     = Done crm (Some errRoleDefinitionCount))
  ∧ ((2 ≤ length (Tokens ast) ≤ count)%nat →
     (∃ crm' err, buildConditionalRoleLinks ast crm = Done crm' err
        ∧ ((∃ rule, rule ∈ Policy ast ∧ (length rule < count)%nat) → err ≠ None))
     ∧ (∃ crm' err,
          buildIncrementalConditionalRoleLinks ast crm op rules = Done crm' err
          ∧ ((∃ rule, rule ∈ rules ∧ (length rule < count)%nat) → err ≠ None))).
Proof.
  cbn zeta.
  unfold buildConditionalRoleLinks, buildIncrementalConditionalRoleLinks.
  cbn zeta. split.
  - intros Hcount. by rewrite !decide_True.
  - intros Htok. rewrite !decide_False by lia. split.
    + rewrite <- incremental_conditional_add_loop.
      by apply conditional_loops_return.
    + by apply conditional_loops_return.
Qed.

End IncrementalFacts.

Section IncrementalExamples.
Import Go Rbac Model Recorder.

Lemma conditional_builders_check_arity_witness :
  buildConditionalRoleLinks (gAssertion "_" ["_"] [] [["alice"; "admin"]])
    (fresh accepting)
  = Done (fresh accepting) (Some errRoleDefinitionCount)
  ∧ ∃ crm' err,
      buildIncrementalConditionalRoleLinks temporalAssertion (fresh accepting)
        PolicyAdd [["alice"; "data2_admin"; "_"]]
      = Done crm' (Some err).
Proof.
  pose proof (conditional_builders_check_arity
                (gAssertion "_" ["_"] [] [["alice"; "admin"]])
                (fresh accepting) PolicyAdd []) as Hlow.
  pose proof (conditional_builders_check_arity temporalAssertion
                (fresh accepting) PolicyAdd [["alice"; "data2_admin"; "_"]])
    as Hshort.
  cbn zeta in Hlow, Hshort.
  destruct Hlow as [Hlow _]. destruct Hshort as [_ Hshort]. split.
  - apply Hlow. vm_compute. lia.
  - destruct Hshort as [_ (crm' & err & Hbuild & Herr)]; [vm_compute; lia|].
    destruct err as [err|].
    + by exists crm', err.
    + exfalso. apply Herr; [|done].
      exists ["alice"; "data2_admin"; "_"].
      split; [apply list_elem_of_here|vm_compute; lia].
Defined.




End IncrementalExamples.

(** *** The file adapters *)
Section AdapterFacts.
Import Go GoStr Model PolicyStore Persist FileAdapter.

(** X12: on a storage where a created file can be written, flushed and
    closed, [SavePolicy] fails, and leaves the storage as it is, when the
    path of the adapter is empty or cannot be created; otherwise it returns
    nil, changes no other file, and writes the empty text when there is no
    rule; the text written depends on the rules met and their order only,
    so that a second save that meets the same rules in the same order
    leaves the storage as the first save has left it. *)
Theorem SavePolicy_storage (a : Adapter)
    (pVisit gVisit : list (string * Assertion)) (fs : FileSystem) :
  (filePath a = "" ∨ filePath a ∈ refused fs →
   ∃ err, SavePolicy a pVisit gVisit fs = (fs, Some err))
  ∧ (filePath a ≠ "" → filePath a ∉ refused fs →
     ∃ fs', SavePolicy a pVisit gVisit fs = (fs', None)
       ∧ refused fs' = refused fs
       ∧ (∀ path, path ≠ filePath a → files fs' !! path = files fs !! path)
       ∧ (visitRules pVisit = [] → visitRules gVisit = [] →
          files fs' !! filePath a = Some "")
       ∧ (∀ pVisit' gVisit',
            visitRules pVisit' = visitRules pVisit →
            visitRules gVisit' = visitRules gVisit →
            SavePolicy a pVisit' gVisit' fs = (fs', None)
            ∧ SavePolicy a pVisit' gVisit' fs' = (fs', None))).
Proof.
  unfold SavePolicy, savePolicyFile. split.
  - intros [->|Hrefused]; [by eexists|].
    destruct (String.eqb (filePath a) ""); [by eexists|].
    rewrite bool_decide_eq_true_2 by done. by eexists.
  - intros Hpath%String.eqb_neq Hcreate. rewrite Hpath.
    rewrite bool_decide_eq_false_2 by done. cbn zeta.
    eexists. split; [done|]. cbn [files refused].
    split; [done|]. split; [|split].
    + intros path Hne. by rewrite lookup_insert_ne.
    + intros Hp Hg. rewrite lookup_insert_eq.
      by rewrite !writeSection_unlines, Hp, Hg.
    + intros pVisit' gVisit' Hp Hg.
      rewrite bool_decide_eq_false_2 by done.
      rewrite !writeSection_unlines, Hp, Hg. split; [done|].
      by rewrite insert_insert_eq.
Qed.

Lemma SavePolicy_storage_witness :
  (∃ err, SavePolicy {| filePath := "" |} [("p", rbacP)] [] emptyDisk
          = (emptyDisk, Some err))
  ∧ (∃ fs', SavePolicy policyCsv [] [] emptyDisk = (fs', None)
            ∧ files fs' !! "policy.csv" = Some "")
  ∧ ∃ fs', SavePolicy policyCsv [("p", rbacP)] [("g", rbacG)] emptyDisk
           = (fs', None)
           ∧ SavePolicy policyCsv [("p2", emptyP); ("p", rbacP)]
                        [("g", rbacG); ("g2", emptyAssertion "g2" "_, _" [] [])]
                        fs'
             = (fs', None).
Proof.
  destruct (SavePolicy_storage {| filePath := "" |} [("p", rbacP)] [] emptyDisk)
    as [Hfail _].
  destruct (SavePolicy_storage policyCsv [] [] emptyDisk) as [_ Hok].
  destruct (SavePolicy_storage policyCsv [("p", rbacP)] [("g", rbacG)] emptyDisk)
    as [_ Hrules].
  split; [apply Hfail; by left|]. split.
  - destruct Hok as (fs' & Hsave & _ & _ & Hempty & _);
      [discriminate|apply not_elem_of_empty|].
    exists fs'. split; [exact Hsave|]. apply Hempty; reflexivity.
  - destruct Hrules as (fs' & Hsave & _ & _ & _ & Hagain);
      [discriminate|apply not_elem_of_empty|].
    exists fs'. split; [exact Hsave|].
    apply Hagain; reflexivity.
Defined.

Lemma handleLines_app (TrimSpace : string → string)
    (handler : string → Model → outcome Model) (lines1 lines2 : list string)
    (model : Model) :
  handleLines TrimSpace handler (lines1 ++ lines2) model
  = andThen (handleLines TrimSpace handler lines1 model)
            (handleLines TrimSpace handler lines2).
Proof.
  revert model; induction lines1 as [|line lines1 IH]; intros model; [done|].
  rewrite <- app_comm_cons. cbn [handleLines].
  destruct (handler (TrimSpace line) model) as [model' [err|]| |];
    first [done|apply IH].
Qed.

Lemma handleLines_failure (TrimSpace : string → string)
    (handler : string → Model → outcome Model) (before after : list string)
    (bad : string) (model model1 : Model) (stop : outcome Model) :
  handleLines TrimSpace handler before model = Done model1 None →
  handler (TrimSpace bad) model1 = stop →
  (∀ m, stop ≠ Done m None) →
  handleLines TrimSpace handler (before ++ bad :: after) model = stop.
Proof.
  intros Hbefore Hbad Hstop. rewrite handleLines_app, Hbefore.
  cbn [andThen handleLines]. rewrite Hbad.
  destruct stop as [m [err|]| |]; try done. by destruct (Hstop m).
Qed.

Section WithLibraries.
Variable TrimSpace : string → string.
Variable scanLines : string → list string * option error.
Variable sep : string.
Variable csvRead : csvReader → string → list string + error.

(** X13: [Adapter.LoadPolicy] refuses the empty path and a path without
    a file, with the model as it was.  It hands the scanned lines, trimmed,
    to [LoadPolicyLine] in order and stops at the first line that does not
    return nil: the result is the result of that line, the rules of the lines
    before it stay in the model, and no later line is read.  When every line
    returns nil the result is the error of the scanner. *)
Theorem LoadPolicy_stops_at_first_failure (a : Adapter) (model : Model)
    (fs : FileSystem) :
  let load := LoadPolicy TrimSpace scanLines sep csvRead a model fs in
  let handler := LoadPolicyLine sep csvRead in
  (filePath a = "" → ∃ err, load = Done model (Some err))
  ∧ (filePath a ≠ "" → files fs !! filePath a = None →
     load = Done model (Some errNoSuchFile))
  ∧ (∀ content before bad after scanErr model1 stop,
       filePath a ≠ "" → files fs !! filePath a = Some content →
       scanLines content = (before ++ bad :: after, scanErr) →
       handleLines TrimSpace handler before model = Done model1 None →
       handler (TrimSpace bad) model1 = stop → (∀ m, stop ≠ Done m None) →
       load = stop)
  ∧ (∀ content lines scanErr model',
       filePath a ≠ "" → files fs !! filePath a = Some content →
       scanLines content = (lines, scanErr) →
       handleLines TrimSpace handler lines model = Done model' None →
       load = Done model' scanErr).
Proof.
  cbn zeta. unfold LoadPolicy, loadPolicyFile. split; [|split; [|split]].
  - intros ->. by eexists.
  - intros Hpath%String.eqb_neq Hfile. by rewrite Hpath, Hfile.
  - intros content before bad after scanErr model1 stop
      Hpath%String.eqb_neq Hfile Hscan Hbefore Hbad Hstop.
    rewrite Hpath, Hfile, Hscan.
    rewrite (handleLines_failure _ _ before after bad model model1 stop) by done.
    destruct stop as [m [err|]| |]; try done. by destruct (Hstop m).
  - intros content lines scanErr model' Hpath%String.eqb_neq Hfile Hscan Hlines.
    by rewrite Hpath, Hfile, Hscan, Hlines.
Qed.

(** X14: [AdapterMock.LoadPolicy] refuses a path without a file, with the
    model as it was.  It hands every result of [ReadString], trimmed, to
    [LoadPolicyLine], the last one at the end of the file included, and
    stops at the first that does not return nil: the rules loaded before it
    stay in the model and nothing after it is loaded.  On an empty file the
    handler is called once, on the trimmed empty line. *)
Theorem MockLoadPolicy_stops_at_first_failure (a : AdapterMock)
    (model : Model) (fs : FileSystem) :
  let load := MockLoadPolicy TrimSpace sep csvRead a model fs in
  let handler := LoadPolicyLine sep csvRead in
  (files fs !! mockFilePath a = None → load = Done model (Some errNoSuchFile))
  ∧ (∀ content before bad after model1 stop,
       files fs !! mockFilePath a = Some content →
       readStrings content = before ++ bad :: after →
       handleLines TrimSpace handler before model = Done model1 None →
       handler (TrimSpace bad) model1 = stop → (∀ m, stop ≠ Done m None) →
       load = stop)
  ∧ (files fs !! mockFilePath a = Some "" →
     load = andThen (handler (TrimSpace "") model) (λ model', Done model' None)).
Proof.
  cbn zeta. unfold MockLoadPolicy, mockLoadPolicyFile. split; [|split].
  - by intros ->.
  - intros content before bad after model1 stop Hfile Hread Hbefore Hbad Hstop.
    rewrite Hfile, Hread. by apply (handleLines_failure _ _ _ _ _ _ model1).
  - intros ->. cbn [readStrings handleLines].
    by destruct (LoadPolicyLine sep csvRead (TrimSpace "") model)
      as [m [err|]| |].
Qed.

(** X15: [LoadPolicyArray] panics exactly on a record without fields and
    on a record whose first field is empty; on every other record it
    returns, with nil or with an error of the policy store. *)
Theorem LoadPolicyArray_panics_on_empty_key (rule : list string) (m : Model) :
  (rule = [] → LoadPolicyArray sep rule m = Crash PanicIndex)
  ∧ (∀ rule1, rule = "" :: rule1 →
       LoadPolicyArray sep rule m = Crash PanicSliceBounds)
  ∧ (∀ c key rule1, rule = String c key :: rule1 →
       ∃ m' err, LoadPolicyArray sep rule m = Done m' err).
Proof.
  split; [by intros ->|]. split; [by intros rule1 ->|].
  intros c key rule1 ->. unfold LoadPolicyArray, slice_to_checked.
  rewrite decide_True by (cbn; lia).
  destruct (HasPolicyEx sep m _ _ rule1) as [[|] [err|]]; [by eauto..|].
  destruct (AddPolicy sep m _ _ rule1) as [m' err]. by eauto.
Qed.

End WithLibraries.

End AdapterFacts.

Section AdapterExamples.
Import Go GoStr Model PolicyStore Persist FileAdapter.

Example readStrings_two_lines :
  readStrings ("a" +:+ newline +:+ "b") = ["a" +:+ newline; "b"]
  ∧ readStrings ("a" +:+ newline) = ["a" +:+ newline; ""].
Proof. split; reflexivity. Qed.

Lemma LoadPolicy_stops_at_first_failure_witness :
  (∃ err, LoadPolicy trimAsciiSpace scanPlainLines "," readPlainRecord
            {| filePath := "" |} emptyModel twoLineDisk
          = Done emptyModel (Some err))
  ∧ LoadPolicy trimAsciiSpace scanPlainLines "," readPlainRecord
      policyCsv emptyModel emptyDisk
    = Done emptyModel (Some errNoSuchFile)
  ∧ LoadPolicy trimAsciiSpace scanPlainLines "," readPlainRecord
      policyCsv emptyModel twoLineDisk
    = Done aliceModel (Some errNoAssertion)
  ∧ LoadPolicy trimAsciiSpace scanPlainLines "," readPlainRecord
      policyCsv emptyModel aliceDisk
    = Done aliceModel None.
Proof.
  pose proof (LoadPolicy_stops_at_first_failure trimAsciiSpace scanPlainLines
                "," readPlainRecord {| filePath := "" |} emptyModel twoLineDisk)
    as Hempty.
  pose proof (LoadPolicy_stops_at_first_failure trimAsciiSpace scanPlainLines
                "," readPlainRecord policyCsv emptyModel emptyDisk) as Hmissing.
  pose proof (LoadPolicy_stops_at_first_failure trimAsciiSpace scanPlainLines
                "," readPlainRecord policyCsv emptyModel twoLineDisk) as Hbad.
  pose proof (LoadPolicy_stops_at_first_failure trimAsciiSpace scanPlainLines
                "," readPlainRecord policyCsv emptyModel aliceDisk) as Hgood.
  cbn zeta in Hempty, Hmissing, Hbad, Hgood.
  destruct Hempty as (Hempty & _). destruct Hmissing as (_ & Hmissing & _).
  destruct Hbad as (_ & _ & Hbad & _). destruct Hgood as (_ & _ & _ & Hgood).
  split; [by apply Hempty|]. split; [by apply Hmissing|]. split.
  - apply (Hbad ("p, alice, data1, read" +:+ newline +:+ "q, bob, data2, write"
                 +:+ newline +:+ "p, carol, data3, read" +:+ newline)
                ["p, alice, data1, read"] "q, bob, data2, write"
                ["p, carol, data3, read"] None aliceModel).
    + discriminate.
    + reflexivity.
    + vm_compute. reflexivity.
    + vm_compute. reflexivity.
    + vm_compute. reflexivity.
    + intros m Hm. discriminate Hm.
  - apply (Hgood ("p, alice, data1, read" +:+ newline)
                 ["p, alice, data1, read"] None aliceModel).
    + discriminate.
    + reflexivity.
    + vm_compute. reflexivity.
    + vm_compute. reflexivity.
Defined.

Lemma MockLoadPolicy_stops_at_first_failure_witness :
  MockLoadPolicy trimAsciiSpace "," readPlainRecord policyCsvMock emptyModel
    emptyDisk
  = Done emptyModel (Some errNoSuchFile)
  ∧ MockLoadPolicy trimAsciiSpace "," readPlainRecord policyCsvMock emptyModel
      twoLineDisk
    = Done aliceModel (Some errNoAssertion)
  ∧ MockLoadPolicy trimAsciiSpace "," readPlainRecord policyCsvMock emptyModel
      emptyFileDisk
    = Done emptyModel None.
Proof.
  pose proof (MockLoadPolicy_stops_at_first_failure trimAsciiSpace
                "," readPlainRecord policyCsvMock emptyModel emptyDisk)
    as Hmissing.
  pose proof (MockLoadPolicy_stops_at_first_failure trimAsciiSpace
                "," readPlainRecord policyCsvMock emptyModel twoLineDisk) as Hbad.
  pose proof (MockLoadPolicy_stops_at_first_failure trimAsciiSpace
                "," readPlainRecord policyCsvMock emptyModel emptyFileDisk)
    as Hfile.
  cbn zeta in Hmissing, Hbad, Hfile.
  destruct Hmissing as (Hmissing & _). destruct Hbad as (_ & Hbad & _).
  destruct Hfile as (_ & _ & Hfile).
  split; [by apply Hmissing|]. split.
  - apply (Hbad ("p, alice, data1, read" +:+ newline +:+ "q, bob, data2, write"
                 +:+ newline +:+ "p, carol, data3, read" +:+ newline)
                ["p, alice, data1, read" +:+ newline]
                ("q, bob, data2, write" +:+ newline)
                ["p, carol, data3, read" +:+ newline; ""] aliceModel).
    + reflexivity.
    + vm_compute. reflexivity.
    + vm_compute. reflexivity.
    + vm_compute. reflexivity.
    + intros m Hm. discriminate Hm.
  - rewrite Hfile by reflexivity. reflexivity.
Defined.

Lemma LoadPolicyArray_panics_on_empty_key_witness :
  LoadPolicyArray "," [] emptyModel = Crash PanicIndex
  ∧ LoadPolicyArray "," [""; "alice"] emptyModel = Crash PanicSliceBounds
  ∧ ∃ m' err, LoadPolicyArray "," ("p" :: aliceRule) emptyModel = Done m' err.
Proof.
  destruct (LoadPolicyArray_panics_on_empty_key "," [] emptyModel)
    as (Hnone & _).
  destruct (LoadPolicyArray_panics_on_empty_key "," [""; "alice"] emptyModel)
    as (_ & Hkey & _).
  destruct (LoadPolicyArray_panics_on_empty_key "," ("p" :: aliceRule) emptyModel)
    as (_ & _ & Hok).
  split; [by apply Hnone|]. split; [by apply (Hkey ["alice"])|].
  by apply (Hok "p"%char "" aliceRule).
Defined.

End AdapterExamples.

(** *** The memo of the g-function *)
Section GFunctionMemoFacts.
Import Go Rbac Util.
Context {RM : Type} `{!RoleManager RM}.

(** X16: once a call of the g-function has returned, every later call
    with the same arguments returns the same value with a nil error and
    leaves the memo as it is, whatever the role manager is by then: the memo
    is not renewed when the links change. *)
Theorem GFunction_memo_persists (rm rm' : option RM)
    (memorized memorized' : gmap string bool) (args : list iface)
    (v : iface) (err : option error) :
  GFunction rm memorized args = Returns (v, err, memorized') →
  GFunction rm' memorized' args = Returns (v, None, memorized').
Proof.
  unfold GFunction. destruct (assertStrings args) as [strs|]; [|done].
  destruct (memorized !! cacheKey strs) as [b|] eqn:Hmemo.
  - intros [= <- _ <-]. by rewrite Hmemo.
  - destruct strs as [|name1 [|name2 rest]]; [done..|].
    intros [= <- _ <-]. by rewrite lookup_insert_eq.
Qed.

End GFunctionMemoFacts.

Section GFunctionMemoExamples.
Import Go Rbac Util Recorder.

Lemma GFunction_memo_persists_witness :
  ∃ memorized,
    GFunction (Some (fresh accepting)) ∅ [IString "alice"; IString "admin"]
    = Returns (IBool false, None, memorized)
    ∧ GFunction (RM := recorder) None memorized [IString "alice"; IString "admin"]
      = Returns (IBool false, None, memorized).
Proof.
  eexists. split; [reflexivity|].
  apply (GFunction_memo_persists (Some (fresh accepting)) None ∅ _ _ _ None).
  reflexivity.
Defined.

End GFunctionMemoExamples.

(** *** Role links: the plain incremental builder on a recording manager *)
Section PlainIncrementalFacts.
Import Go Rbac Model Recorder.




End PlainIncrementalFacts.
